(** * Video ingestion: stored locations, aspect classification, upload handler

    A shallow embedding of [handlerUploadVideo], [dbVideoToSignedVideo]
    (the video handler file), [getVideoAspectRatio]
    (video_aspect_ratio.go) and [handlerUploadThumbnail]
    (handler_upload_thumbnail.go), with the properties the specification
    states about them. *)

From Stdlib Require Import ZArith QArith Ascii String List Bool Lia.
From Stdlib Require Import Floats.SpecFloat.
From stdpp Require Import base gmap strings.
Import ListNotations.

Local Open Scope string_scope.

(** ** The Go [strings] functions the resolver calls

    Go strings are byte sequences; [string] is a list of [ascii] bytes.
    Every separator the sources pass ("/", "." and ",") is one byte, so a
    separator is an [ascii] here. *)

Module GoStrings.

(** [strings.HasPrefix(s, prefix)]. *)
Fixpoint HasPrefix (s prefix : string) : bool :=
  match prefix, s with
  | EmptyString, _ => true
  | String p prefix', String c s' => Ascii.eqb c p && HasPrefix s' prefix'
  | String _ _, EmptyString => false
  end.

(** [strings.TrimPrefix(s, prefix)]: [s] without the leading [prefix],
    and [s] itself when it does not start with [prefix]. *)
Definition TrimPrefix (s prefix : string) : string :=
  if HasPrefix s prefix
  then String.substring (String.length prefix)
                        (String.length s - String.length prefix) s
  else s.

(** Puts one more byte in front of the first piece of a split. *)
Definition consHead (c : ascii) (parts : list string) : list string :=
  match parts with
  | p :: rest => String c p :: rest
  | [] => [String c EmptyString]
  end.

(** [strings.Split(s, sep)] for a one-byte [sep]: all pieces between
    separators; a string without separator is returned as one piece. *)
Fixpoint Split (s : string) (sep : ascii) : list string :=
  match s with
  | EmptyString => [EmptyString]
  | String c s' =>
      if Ascii.eqb c sep then EmptyString :: Split s' sep
      else consHead c (Split s' sep)
  end.

(** [strings.SplitN(s, sep, n)] for a one-byte [sep] and [n >= 0]: at most
    [n] pieces, the last one being the unsplit remainder; no piece at all
    for [n = 0]. *)
Fixpoint SplitN (s : string) (sep : ascii) (n : nat) {struct s} : list string :=
  match n with
  | O => []
  | S O => [s]
  | S (S _ as n') =>
      match s with
      | EmptyString => [EmptyString]
      | String c s' =>
          if Ascii.eqb c sep then EmptyString :: SplitN s' sep n'
          else consHead c (SplitN s' sep n)
      end
  end.

(** [strings.Join(elems, sep)]. *)
Fixpoint Join (elems : list string) (sep : string) : string :=
  match elems with
  | [] => EmptyString
  | [e] => e
  | e :: rest => e +:+ sep +:+ Join rest sep
  end.

End GoStrings.

Import GoStrings.

(** ** Location decoding (dbVideoToSignedVideo, the bucket/key block) *)

(** The three [fmt.Errorf] results of the decoding block. *)
Inductive FormatError : Type :=
| InvalidS3URLFormat
| InvalidS3DomainFormat
| InvalidVideoURLFormat (videoURL : string).

(** The block of [dbVideoToSignedVideo] that computes [bucket] and [key]
    from [*video.VideoURL]. *)
Definition decodeVideoURL (videoURL : string) : FormatError + string * string :=
  if HasPrefix videoURL "https://" then
    let urlStr := TrimPrefix videoURL "https://" in
    match SplitN urlStr "/" 2 with
    | [host; path] =>
        match Split host "." with
        | [] => inl InvalidS3DomainFormat
        | bucket :: _ => inr (bucket, path)
        end
    | _ => inl InvalidS3URLFormat
    end
  else
    match Split videoURL "," with
    | [bucket; key] => inr (bucket, key)
    | _ => inl (InvalidVideoURLFormat videoURL)
    end.

(** What the handler writes on publish: [fmt.Sprintf("%s,%s", bucket, key)]. *)
Definition compactLocation (bucket key : string) : string :=
  bucket +:+ "," +:+ key.

(** ** The two Location forms as the specification words them *)

Module LocationSpec.

(** [s] cut at the first occurrence of [c]. *)
Fixpoint cut (c : ascii) (s : string) : option (string * string) :=
  match s with
  | EmptyString => None
  | String a s' =>
      if Ascii.eqb a c then Some (EmptyString, s')
      else match cut c s' with
           | Some (l, r) => Some (String a l, r)
           | None => None
           end
  end.

(** Does byte [c] occur in [s]? *)
Fixpoint occurs (c : ascii) (s : string) : bool :=
  match s with
  | EmptyString => false
  | String a s' => Ascii.eqb a c || occurs c s'
  end.

(** [s] with the scheme stripped, when it has the scheme. *)
Fixpoint stripScheme (scheme s : string) : option string :=
  match scheme, s with
  | EmptyString, _ => Some s
  | String p scheme', String c s' =>
      if Ascii.eqb c p then stripScheme scheme' s' else None
  | String _ _, EmptyString => None
  end.

(** The first dot-delimited label of a host name. *)
Definition firstLabel (host : string) : string :=
  match cut "." host with
  | Some (label, _) => label
  | None => host
  end.

(** URL form: strip the scheme, split host from path at the first '/',
    bucket is the first dot-delimited label of the host, key is the
    remainder of the path. *)
Definition urlForm (location : string) : option (string * string) :=
  match stripScheme "https://" location with
  | Some rest =>
      match cut "/" rest with
      | Some (host, path) => Some (firstLabel host, path)
      | None => None
      end
  | None => None
  end.

(** Compact form: split on the first comma into bucket and key; it does
    not decode unless there is exactly one comma. *)
Definition compactForm (location : string) : option (string * string) :=
  match cut "," location with
  | Some (bucket, key) => if occurs "," key then None else Some (bucket, key)
  | None => None
  end.

(** Resolution order of the specification: URL form first, and compact
    form when the URL form does not parse. *)
Definition decodeEither (location : string) : option (string * string) :=
  match urlForm location with
  | Some bk => Some bk
  | None => compactForm location
  end.

End LocationSpec.

Definition decoded {E A} (r : E + A) : option A :=
  match r with inr a => Some a | inl _ => None end.

(** ** [path/filepath] (Unix separator) *)

Module filepath.

(** One path element of [Clean]'s scan: empty and "." elements are
    dropped, ".." removes the last real element (or is kept in front of
    a relative path that has none left), any other element is appended.
    [out] holds the kept elements, last one first. *)
Definition cleanElem (rooted : bool) (out : list string) (elem : string)
  : list string :=
  if String.eqb elem "" || String.eqb elem "." then out
  else if String.eqb elem ".." then
    match out with
    | top :: below => if String.eqb top ".." then elem :: out else below
    | [] => if rooted then [] else [elem]
    end
  else elem :: out.

(** [filepath.Clean(path)]. *)
Definition Clean (path : string) : string :=
  if String.eqb path "" then "."
  else
    let rooted := GoStrings.HasPrefix path "/" in
    let out := fold_left (cleanElem rooted) (GoStrings.Split path "/") [] in
    let body := GoStrings.Join (rev out) "/" in
    if rooted then "/" +:+ body
    else if String.eqb body "" then "." else body.

(** [filepath.Join(elem...)]: the elements from the first non-empty one
    on, joined by the separator and cleaned; "" when all are empty. *)
Fixpoint Join (elem : list string) : string :=
  match elem with
  | [] => ""
  | e :: rest =>
      if String.eqb e "" then Join rest
      else Clean (GoStrings.Join elem "/")
  end.

End filepath.

(** ** float64 arithmetic

    Go's [float64] is IEEE 754 binary64: the standard library's
    [SpecFloat] operations at precision 53 and maximal exponent 1024. *)

Module Float64.

Definition prec : Z := 53.
Definition emax : Z := 1024.

(** The conversion [float64(n)] of an [int]. *)
Definition ofInt (n : Z) : spec_float := binary_normalize prec emax n 0 false.

Definition div : spec_float -> spec_float -> spec_float := SFdiv prec emax.
Definition sub : spec_float -> spec_float -> spec_float := SFsub prec emax.
Definition ltb : spec_float -> spec_float -> bool := SFltb.

(** [math.Abs]. *)
Definition Abs : spec_float -> spec_float := SFabs.

(** The float64 value of an untyped constant [p/q] (or of the decimal
    literal it equals): Go evaluates constant expressions exactly and
    rounds once to the nearest float64, which is what one correctly
    rounded division of the exactly representable [p] and [q] yields. *)
Definition const (p q : Z) : spec_float := div (ofInt p) (ofInt q).

End Float64.

(** ** getVideoAspectRatio (video_aspect_ratio.go) *)

(** One element of [ffprobeOutput.Streams]; the [int] fields hold what
    the JSON decoder accepted, any 64-bit integer. *)
Record Stream : Type := { Width : Z; Height : Z }.

(** What running ffprobe and unmarshalling its output can give. *)
Inductive ProbeResult : Type :=
| ProbeRunError
| ProbeUnmarshalError
| ProbeOutput (streams : list Stream).

Inductive ProbeError : Type :=
| FfprobeError
| JSONUnmarshalError
| NoStreamsFound
| NoValidVideoDimensions.

(** The [for ... range output.Streams] loop: the dimensions of the first
    stream with both of them non-zero; [videoWidth] and [videoHeight]
    keep their zero value when there is none. *)
Fixpoint firstDimensions (streams : list Stream) : Z * Z :=
  match streams with
  | [] => (0, 0)%Z
  | stream :: rest =>
      if negb (Width stream =? 0)%Z && negb (Height stream =? 0)%Z
      then (Width stream, Height stream)
      else firstDimensions rest
  end.

(** Lines 60-68: the ratio and the two tolerance tests. *)
Definition classifyAspectRatio (videoWidth videoHeight : Z) : string :=
  let aspectRatio :=
    Float64.div (Float64.ofInt videoWidth) (Float64.ofInt videoHeight) in
  let tolerance := Float64.const 1 10 in
  if Float64.ltb
       (Float64.Abs (Float64.sub aspectRatio (Float64.const 16 9))) tolerance
  then "16:9"
  else if Float64.ltb
            (Float64.Abs (Float64.sub aspectRatio (Float64.const 9 16)))
            tolerance
  then "9:16"
  else "other".

(** [getVideoAspectRatio], from the result of the ffprobe run on. *)
Definition getVideoAspectRatio (probe : ProbeResult) : ProbeError + string :=
  match probe with
  | ProbeRunError => inl FfprobeError
  | ProbeUnmarshalError => inl JSONUnmarshalError
  | ProbeOutput streams =>
      if (List.length streams =? 0)%nat then inl NoStreamsFound
      else
        let '(videoWidth, videoHeight) := firstDimensions streams in
        if (videoWidth =? 0)%Z || (videoHeight =? 0)%Z
        then inl NoValidVideoDimensions
        else inr (classifyAspectRatio videoWidth videoHeight)
  end.

(** ** Records, stores and the local file system *)

Definition UUID : Type := string.

(** [database.Video], with the fields the handlers read or write. *)
Record Video : Type := {
  ID : UUID;
  UserID : UUID;
  VideoURL : option string;
  ThumbnailURL : option string
}.

Definition withVideoURL (video : Video) (url : string) : Video :=
  {| ID := ID video; UserID := UserID video;
     VideoURL := Some url; ThumbnailURL := ThumbnailURL video |}.

Definition withThumbnailURL (video : Video) (url : string) : Video :=
  {| ID := ID video; UserID := UserID video;
     VideoURL := VideoURL video; ThumbnailURL := Some url |}.

(** The effects a handler has had on the world outside it, oldest first. *)
Inductive Event : Type :=
| EvCreateTemp (name : string)
| EvCreate (name : string)
| EvFastStart (input output : string)
| EvRemove (name : string)
| EvPutObject (bucket key : string)
| EvUpdateVideo (video : Video).

(** The metadata store, the local files, the object store (content type
    by bucket and key), and the effects so far. *)
Record World : Type := {
  db : gmap UUID Video;
  files : gset string;
  objects : gmap (string * string) string;
  trace : list Event
}.

Definition record (ev : Event) (w : World) : World :=
  {| db := db w; files := files w; objects := objects w;
     trace := trace w ++ [ev] |}.

Definition addFile (name : string) (w : World) : World :=
  {| db := db w; files := {[name]} ∪ files w; objects := objects w;
     trace := trace w |}.

(** [os.Remove(name)]. *)
Definition Remove (name : string) (w : World) : World :=
  record (EvRemove name)
    {| db := db w; files := files w ∖ {[name]}; objects := objects w;
       trace := trace w |}.

Definition putObject (bucket key contentType : string) (w : World) : World :=
  record (EvPutObject bucket key)
    {| db := db w; files := files w;
       objects := <[(bucket, key) := contentType]> (objects w);
       trace := trace w |}.

Definition storeVideo (video : Video) (w : World) : World :=
  record (EvUpdateVideo video)
    {| db := <[ID video := video]> (db w); files := files w;
       objects := objects w; trace := trace w |}.

(** ** Requests, configuration and collaborators *)

(** One file part of the multipart form: its Content-Type header and its
    bytes. *)
Record FilePart : Type := { ContentType : string; Data : string }.

Record Request : Type := {
  PathValue : string -> string;
  Header : string -> string;
  FormFile : string -> option FilePart
}.

Record apiConfig : Type := {
  s3Bucket : string;
  assetsRoot : string;
  port : string
}.

(** What the libraries and external services answer during one request;
    [None] and [false] stand for a returned error.

    Modelled from the spec: [processVideoForFastStart] is not among the
    sources; given the path of a local video file it produces a new
    local file and returns its path, or it fails, when the external
    tool exits non-zero or the expected output file is not produced.
    The cleanup of the output is left to the caller, so a run that
    fails may have left an output file behind: [fastStartLeftover]
    is that file, if there is one. *)
Record Collaborators : Type := {
  uuid_Parse : string -> option UUID;
  GetBearerToken : (string -> string) -> option string;
  ValidateJWT : string -> option UUID;
  storeFailure : bool;
  ParseMediaType : string -> option string;
  CreateTemp : option string;
  io_Copy : bool;
  Seek : bool;
  ffprobe : string -> ProbeResult;
  processVideoForFastStart : string -> option string;
  fastStartLeftover : string -> option string;
  Open : string -> bool;
  newAssetID : string;
  rand_Read : option string;
  PutObject : bool;
  UpdateVideoOK : bool;
  PresignGetObject : string -> string -> option string;
  ReadAll : bool;
  Create : string -> bool
}.

Inductive StoreError : Type := NotFoundError | StoreFailure.

(** Modelled from the spec: [cfg.db.GetVideo] is not among the sources;
    the metadata store answers the record of a known id, [NotFoundError]
    for an unknown record, and an error when the store itself fails. *)
Definition GetVideo (env : Collaborators) (w : World) (videoID : UUID)
  : StoreError + Video :=
  if storeFailure env then inl StoreFailure
  else match db w !! videoID with
       | Some video => inr video
       | None => inl NotFoundError
       end.

(** Modelled from the spec: [getAssetPath] is not among the sources; the
    object key is "<category>/<opaque-id>.mp4", so the asset path of a
    freshly generated id is the id followed by ".mp4". *)
Definition getAssetPath (assetID : string) (mediaType : string) : string :=
  assetID +:+ ".mp4".

(** ** Handlers: early return and deferred calls *)

Inductive Body : Type :=
| ErrorBody (msg : string)
| VideoBody (video : Video).

Record Response : Type := { status : Z; body : Body }.

Inductive Deferred : Type :=
| DeferClose (name : string)
| DeferRemove (name : string).

(** A handler step runs in a world with the deferred calls registered so
    far (last registered first); it either has responded and returned
    ([inl]) or goes on with a value ([inr]). *)
Definition Handler (A : Type) : Type :=
  World -> list Deferred -> (Response + A) * World * list Deferred.

#[global] Instance Handler_ret : MRet Handler :=
  fun A a w ds => (inr a, w, ds).

#[global] Instance Handler_bind : MBind Handler :=
  fun A B k h w ds =>
    match h w ds with
    | (inl resp, w', ds') => (inl resp, w', ds')
    | (inr a, w', ds') => k a w' ds'
    end.

(** [respondWithError(w, code, msg, err); return]. *)
Definition respondWithError {A} (code : Z) (msg : string) : Handler A :=
  fun w ds => (inl {| status := code; body := ErrorBody msg |}, w, ds).

(** [respondWithJSON(w, code, video)] as the handler's last statement. *)
Definition respondWithJSON (code : Z) (video : Video) : Handler Response :=
  mret {| status := code; body := VideoBody video |}.

Definition defer (d : Deferred) : Handler unit :=
  fun w ds => (inr tt, w, d :: ds).

Definition effect (f : World -> World) : Handler unit :=
  fun w ds => (inr tt, f w, ds).

Definition world : Handler World :=
  fun w ds => (inr w, w, ds).

(** [x, err := call; if err != nil { respondWithError(...); return }]. *)
Definition orRespond {A} (x : option A) (code : Z) (msg : string) : Handler A :=
  match x with
  | Some a => mret a
  | None => respondWithError code msg
  end.

Definition okOrRespond (ok : bool) (code : Z) (msg : string) : Handler unit :=
  if ok then mret tt else respondWithError code msg.

Definition runDeferredCall (d : Deferred) (w : World) : World :=
  match d with
  | DeferClose _ => w
  | DeferRemove name => Remove name w
  end.

(** The deferred calls run when the handler returns, last registered
    first. *)
Fixpoint runDeferred (ds : list Deferred) (w : World) : World :=
  match ds with
  | [] => w
  | d :: rest => runDeferred rest (runDeferredCall d w)
  end.

(** One request served: the response and the world it leaves. *)
Definition serve (h : Handler Response) (w : World) : Response * World :=
  match h w [] with
  | (inl resp, w', ds) => (resp, runDeferred ds w')
  | (inr resp, w', ds) => (resp, runDeferred ds w')
  end.

(** ** dbVideoToSignedVideo *)

Inductive SignError : Type :=
| BadLocation (e : FormatError)
| PresignFailed.

(** [generatePresignedURL(cfg.s3Client, bucket, key, time.Hour)]. *)
Definition generatePresignedURL (env : Collaborators) (bucket key : string)
  : option string :=
  PresignGetObject env bucket key.

Definition dbVideoToSignedVideo (env : Collaborators) (video : Video)
  : SignError + Video :=
  match VideoURL video with
  | None => inr video
  | Some videoURL =>
      match decodeVideoURL videoURL with
      | inl e => inl (BadLocation e)
      | inr (bucket, key) =>
          match generatePresignedURL env bucket key with
          | None => inl PresignFailed
          | Some presignedURL => inr (withVideoURL video presignedURL)
          end
      end
  end.

(** ** handlerUploadVideo *)

(** The call [processVideoForFastStart(tempFile.Name())]: the file the
    optimizer has written is among the local files from then on, also
    when the run fails after having written it. *)
Definition runFastStart (env : Collaborators) (input : string)
  : Handler (option string) :=
  match processVideoForFastStart env input with
  | Some output =>
      effect (fun w => record (EvFastStart input output) (addFile output w));;
      mret (Some output)
  | None =>
      match fastStartLeftover env input with
      | Some leftover =>
          effect (fun w => record (EvFastStart input leftover)
                             (addFile leftover w));;
          mret None
      | None => mret None
      end
  end.

(** The [switch videoAspectRatio] of the handler. *)
Definition directoryFor (videoAspectRatio : string) : string :=
  if String.eqb videoAspectRatio "16:9" then "landscape"
  else if String.eqb videoAspectRatio "9:16" then "portrait"
  else "other".

(** The body limit of [http.MaxBytesReader] shows as a failing
    [FormFile]; everything else follows the handler line by line. *)
Definition handlerUploadVideo (cfg : apiConfig) (env : Collaborators)
    (r : Request) : Handler Response :=
  videoID ← orRespond (uuid_Parse env (PathValue r "videoID"))
              400 "Invalid video ID";
  token ← orRespond (GetBearerToken env (Header r)) 401 "Couldn't find JWT";
  userID ← orRespond (ValidateJWT env token) 401 "Couldn't validate JWT";
  w ← world;
  video ← orRespond (decoded (GetVideo env w videoID))
            500 "Couldn't get video metadata";
  okOrRespond (String.eqb (UserID video) userID)
    401 "User not authorized to upload video";;
  file ← orRespond (FormFile r "video") 400 "Unable to parse form file";
  defer (DeferClose "video");;
  mediaType ← orRespond (ParseMediaType env (ContentType file))
                400 "Invalid Content-Type";
  okOrRespond (String.eqb mediaType "video/mp4") 400 "Invalid file type";;
  tempFile ← orRespond (CreateTemp env) 500 "Couldn't create temp file";
  effect (fun w => record (EvCreateTemp tempFile) (addFile tempFile w));;
  defer (DeferRemove tempFile);;
  defer (DeferClose tempFile);;
  okOrRespond (io_Copy env) 500 "Could not write file to disk";;
  okOrRespond (Seek env) 500 "Could not reset file pointer";;
  videoAspectRatio ← orRespond (decoded (getVideoAspectRatio (ffprobe env tempFile)))
                       500 "Couldn't get video aspect ratio";
  let directory := directoryFor videoAspectRatio in
  processed ← runFastStart env tempFile;
  processedFilePath ← orRespond processed
                        500 "Couldn't process video for fast start";
  defer (DeferRemove processedFilePath);;
  okOrRespond (Open env processedFilePath) 500 "Couldn't open processed file";;
  defer (DeferClose processedFilePath);;
  let key := getAssetPath (newAssetID env) mediaType in
  let key := filepath.Join [directory; key] in
  let video_url := compactLocation (s3Bucket cfg) key in
  okOrRespond (PutObject env) 500 "Couldn't upload file to S3";;
  effect (putObject (s3Bucket cfg) key "video/mp4");;
  let video := withVideoURL video video_url in
  okOrRespond (UpdateVideoOK env) 500 "Couldn't update video";;
  effect (storeVideo video);;
  signedVideo ← orRespond (decoded (dbVideoToSignedVideo env video))
                  500 "Couldn't generate presigned URL";
  respondWithJSON 200 signedVideo.

(** ** handlerUploadThumbnail (handler_upload_thumbnail.go) *)

Definition contentTypeToExt : gmap string string :=
  <["image/jpeg" := ".jpg"]> (<["image/png" := ".png"]> ∅).

Definition handlerUploadThumbnail (cfg : apiConfig) (env : Collaborators)
    (r : Request) : Handler Response :=
  videoID ← orRespond (uuid_Parse env (PathValue r "videoID")) 400 "Invalid ID";
  token ← orRespond (GetBearerToken env (Header r)) 401 "Couldn't find JWT";
  userID ← orRespond (ValidateJWT env token) 401 "Couldn't validate JWT";
  file ← orRespond (FormFile r "thumbnail") 400 "Unable to parse form file";
  defer (DeferClose "thumbnail");;
  mediaType ← orRespond (ParseMediaType env (ContentType file))
                400 "Invalid Content-Type";
  okOrRespond (String.eqb mediaType "image/jpeg" || String.eqb mediaType "image/png")
    400 "Invalid file type";;
  okOrRespond (ReadAll env) 500 "Couldn't read file";;
  w ← world;
  video ← orRespond (decoded (GetVideo env w videoID)) 404 "Video not found";
  okOrRespond (String.eqb (UserID video) userID)
    401 "No access right to this video";;
  ext ← orRespond (contentTypeToExt !! mediaType) 400 "Unsupported image type";
  base64Name ← orRespond (rand_Read env) 500 "Couldn't generate random name";
  let filename := base64Name +:+ ext in
  let filepath := filepath.Join [assetsRoot cfg; filename] in
  okOrRespond (Create env filepath) 500 "Couldn't create thumbnail file";;
  effect (fun w => record (EvCreate filepath) (addFile filepath w));;
  defer (DeferClose filepath);;
  okOrRespond (io_Copy env) 500 "Couldn't copy thumbnail file";;
  let thumbnailUrl :=
    "http://localhost:" +:+ port cfg +:+ "/assets/" +:+ filename in
  let video := withThumbnailURL video thumbnailUrl in
  okOrRespond (UpdateVideoOK env) 500 "Couldn't update video";;
  effect (storeVideo video);;
  respondWithJSON 200 video.

(** Do staging, classification, optimization and publish all succeed
    for these collaborators? *)
Definition pipelineSucceeds (env : Collaborators) : bool :=
  match CreateTemp env with
  | None => false
  | Some tempFile =>
      io_Copy env && Seek env &&
      match getVideoAspectRatio (ffprobe env tempFile), processVideoForFastStart env tempFile with
      | inr _, Some processedFilePath => Open env processedFilePath && PutObject env
      | _, _ => false
      end
  end.

(** A path element that [filepath.Clean] keeps as it is. *)
Definition plainElem (elem : string) : bool :=
  negb (String.eqb elem "" || String.eqb elem "." || String.eqb elem ".."
        || LocationSpec.occurs "/" elem).

(** ** Reading float64 values

    The facts about the classifier are stated on a float's value scaled
    by [2^256], an integer for every finite float of exponent at least
    -256; the classifier's floats have exponents above -200. *)

Module Float64Value.

Local Open Scope Z_scope.

(** Number of binary digits of a positive mantissa. *)
Definition digits (m : positive) : Z := Zpos (digits2_pos m).

(** The value of [x] times [2^256]; 0 for what is not finite. *)
Definition scaled (x : spec_float) : Z :=
  match x with
  | S754_finite s m e => cond_Zopp s (Zpos m * 2 ^ (e + 256))
  | _ => 0
  end.

(** Zero, or a finite float with a full 53-bit mantissa and an exponent
    from -256 up to the largest binary64 exponent. *)
Definition regular (x : spec_float) : Prop :=
  match x with
  | S754_zero _ => True
  | S754_finite _ m e => digits m = 53 /\ -256 <= e <= 971
  | _ => False
  end.

(** A finite float with a full mantissa and an exponent far from the
    subnormal and the overflow range. *)
Definition moderate (x : spec_float) : Prop :=
  match x with
  | S754_finite _ m e => digits m = 53 /\ -190 <= e <= 900
  | _ => False
  end.

(** Where the exact value [N/D] lies from the integer [m] on: on it, or
    within the next unit, below, at or above its middle. *)
Definition located (N D m : Z) (l : location) : Prop :=
  m * D <= N < (m + 1) * D /\
  match l with
  | loc_Exact => N = m * D
  | loc_Inexact c => N <> m * D /\ (2 * (N - m * D) ?= D) = c
  end.

(** The float of a rounded mantissa [2^52 <= m <= 2^53] at exponent [e]:
    a mantissa that rounding carried to [2^53] moves to the next
    exponent. *)
Definition pack (s : bool) (m e : Z) : spec_float :=
  if m <? 2 ^ 53 then S754_finite s (Z.to_pos m) e
  else S754_finite s (Z.to_pos (2 ^ 52)) (e + 1).

End Float64Value.

(** The classification as the bands of the specification word it, on the
    exact ratio [width/height]: 16:9 from 16/9 - 0.1 up to, but not
    including, 16/9 + 0.1; otherwise 9:16 from 9/16 - 0.1 up to and
    including 9/16 + 0.1; otherwise other. *)
Definition classifyByBands (width height : Z) : string :=
  let ratio := (inject_Z width / inject_Z height)%Q in
  if Qle_bool ((16 # 9) - (1 # 10)) ratio
     && negb (Qle_bool ((16 # 9) + (1 # 10)) ratio)
  then "16:9"
  else if Qle_bool ((9 # 16) - (1 # 10)) ratio
          && Qle_bool ratio ((9 # 16) + (1 # 10))
  then "9:16"
  else "other".

(** ** Sample configuration, collaborators and requests *)

Module Samples.

Definition cfg : apiConfig :=
  {| s3Bucket := "my-bucket"; assetsRoot := "./assets"; port := "8091" |}.

(** Collaborators that all succeed: ids and tokens are taken as they
    come, the probe reports one 1920x1080 stream. *)
Definition env : Collaborators :=
  {| uuid_Parse := fun s => Some s;
     GetBearerToken :=
       fun h => if String.eqb (h "Authorization") "" then None
                else Some (h "Authorization");
     ValidateJWT := fun token => Some token;
     storeFailure := false;
     ParseMediaType := fun s => Some s;
     CreateTemp := Some "/tmp/tubely-upload-1.mp4";
     io_Copy := true;
     Seek := true;
     ffprobe := fun _ => ProbeOutput [ {| Width := 1920; Height := 1080 |} ];
     processVideoForFastStart := fun p => Some (p +:+ ".processing");
     fastStartLeftover := fun _ => None;
     Open := fun _ => true;
     newAssetID := "abc";
     rand_Read := Some "xyz";
     PutObject := true;
     UpdateVideoOK := true;
     PresignGetObject := fun b k => Some ("https://signed/" +:+ b +:+ "/" +:+ k);
     ReadAll := true;
     Create := fun _ => true |}.

(** The same collaborators, with an object store that refuses the
    upload. *)
Definition envPublishFails : Collaborators :=
  {| uuid_Parse := uuid_Parse env;
     GetBearerToken := GetBearerToken env;
     ValidateJWT := ValidateJWT env;
     storeFailure := storeFailure env;
     ParseMediaType := ParseMediaType env;
     CreateTemp := CreateTemp env;
     io_Copy := io_Copy env;
     Seek := Seek env;
     ffprobe := ffprobe env;
     processVideoForFastStart := processVideoForFastStart env;
     fastStartLeftover := fastStartLeftover env;
     Open := Open env;
     newAssetID := newAssetID env;
     rand_Read := rand_Read env;
     PutObject := false;
     UpdateVideoOK := UpdateVideoOK env;
     PresignGetObject := PresignGetObject env;
     ReadAll := ReadAll env;
     Create := Create env |}.


Definition part (contentType : string) : FilePart :=
  {| ContentType := contentType; Data := "" |}.

(** A request for record [videoID] by the user of credential
    [authorization] ("" for none), every part declared as [contentType]. *)
Definition request (videoID authorization contentType : string) : Request :=
  {| PathValue := fun _ => videoID;
     Header := fun _ => authorization;
     FormFile := fun _ => Some (part contentType) |}.

Definition aliceVideo : Video :=
  {| ID := "v1"; UserID := "alice"; VideoURL := None; ThumbnailURL := None |}.

(** A world whose metadata store holds one record, "v1" of "alice". *)
Definition w : World :=
  {| db := {[ "v1" := aliceVideo ]}; files := ∅; objects := ∅; trace := [] |}.

End Samples.

(** ** [encoding/base64]: [RawURLEncoding] *)

Module base64.

(** [encodeURL], the URL-safe alphabet. *)
Definition encodeURL : string :=
  "ABCDEFGHIJKLMNOPQRSTUVWXYZabcdefghijklmnopqrstuvwxyz0123456789-_".

(** [enc.encode[i]]; the encoder masks every index to six bits, so the
    table is never read past its 64 entries. *)
Definition encode (i : N) : ascii :=
  match String.get (N.to_nat i) encodeURL with
  | Some c => c
  | None => "000"%char
  end.

(** [RawURLEncoding.EncodeToString(src)]: each group of three bytes
    gives four characters, six bits each; a last group of one byte
    gives two characters and one of two bytes gives three; there is no
    padding. *)
Fixpoint EncodeToString (src : list Byte.byte) : string :=
  match src with
  | b0 :: b1 :: b2 :: rest =>
      let val := N.lor (N.lor (N.shiftl (Byte.to_N b0) 16)
                              (N.shiftl (Byte.to_N b1) 8))
                       (Byte.to_N b2) in
      String (encode (N.land (N.shiftr val 18) 63))
        (String (encode (N.land (N.shiftr val 12) 63))
           (String (encode (N.land (N.shiftr val 6) 63))
              (String (encode (N.land val 63)) (EncodeToString rest))))
  | [b0; b1] =>
      let val := N.lor (N.shiftl (Byte.to_N b0) 16)
                       (N.shiftl (Byte.to_N b1) 8) in
      String (encode (N.land (N.shiftr val 18) 63))
        (String (encode (N.land (N.shiftr val 12) 63))
           (String (encode (N.land (N.shiftr val 6) 63)) EmptyString))
  | [b0] =>
      let val := N.shiftl (Byte.to_N b0) 16 in
      String (encode (N.land (N.shiftr val 18) 63))
        (String (encode (N.land (N.shiftr val 12) 63)) EmptyString)
  | [] => EmptyString
  end.

End base64.

(** Is every byte of [s] one of the bytes of [alphabet]? *)
Fixpoint within (alphabet s : string) : bool :=
  match s with
  | EmptyString => true
  | String c s' => LocationSpec.occurs c alphabet && within alphabet s'
  end.

(** ** Collaborators with other late answers *)

(** [env] with another random name, another answer to the record update
    and another presigner. *)
Definition withLateAnswers (env : Collaborators) (name : option string)
    (updateOK : bool) (presign : string -> string -> option string)
  : Collaborators :=
  {| uuid_Parse := uuid_Parse env;
     GetBearerToken := GetBearerToken env;
     ValidateJWT := ValidateJWT env;
     storeFailure := storeFailure env;
     ParseMediaType := ParseMediaType env;
     CreateTemp := CreateTemp env;
     io_Copy := io_Copy env;
     Seek := Seek env;
     ffprobe := ffprobe env;
     processVideoForFastStart := processVideoForFastStart env;
     fastStartLeftover := fastStartLeftover env;
     Open := Open env;
     newAssetID := newAssetID env;
     rand_Read := name;
     PutObject := PutObject env;
     UpdateVideoOK := updateOK;
     PresignGetObject := presign;
     ReadAll := ReadAll env;
     Create := Create env |}.

(** Thirty-two bytes, 0x00 to 0x1f. *)
Definition sampleKey : list Byte.byte :=
  [Byte.x00; Byte.x01; Byte.x02; Byte.x03; Byte.x04; Byte.x05; Byte.x06; Byte.x07;
   Byte.x08; Byte.x09; Byte.x0a; Byte.x0b; Byte.x0c; Byte.x0d; Byte.x0e; Byte.x0f;
   Byte.x10; Byte.x11; Byte.x12; Byte.x13; Byte.x14; Byte.x15; Byte.x16; Byte.x17;
   Byte.x18; Byte.x19; Byte.x1a; Byte.x1b; Byte.x1c; Byte.x1d; Byte.x1e; Byte.x1f].

(** * Properties *)

(** ** Strings *)

Section StringFacts.

Import LocationSpec.

Lemma substring_all (s : string) : String.substring 0 (String.length s) s = s.
Proof. induction s as [|c s IH]; simpl; [reflexivity | now rewrite IH]. Qed.

Lemma HasPrefix_app (p r : string) : HasPrefix (p +:+ r) p = true.
Proof.
  induction p as [|c p IH]; simpl; [now destruct r|].
  now rewrite Ascii.eqb_refl, IH.
Qed.

Lemma HasPrefix_inv (p s : string) :
  HasPrefix s p = true -> exists r, s = p +:+ r.
Proof.
  revert s; induction p as [|c p IH]; intros s H.
  - now exists s.
  - destruct s as [|a s]; simpl in H; [discriminate|].
    apply andb_prop in H as [Hc Hp]. apply Ascii.eqb_eq in Hc; subst a.
    destruct (IH _ Hp) as [r ->]. now exists r.
Qed.

Lemma TrimPrefix_app (p r : string) : TrimPrefix (p +:+ r) p = r.
Proof.
  unfold TrimPrefix. rewrite HasPrefix_app.
  induction p as [|c p IH]; simpl.
  - rewrite Nat.sub_0_r. apply substring_all.
  - exact IH.
Qed.

Lemma stripScheme_HasPrefix (p s : string) :
  stripScheme p s = if HasPrefix s p then Some (TrimPrefix s p) else None.
Proof.
  destruct (HasPrefix s p) eqn:H.
  - destruct (HasPrefix_inv _ _ H) as [r ->]. rewrite TrimPrefix_app.
    clear H. induction p as [|c p IH]; simpl; [reflexivity|].
    now rewrite Ascii.eqb_refl.
  - revert s H; induction p as [|c p IH]; intros s H; [now destruct s|].
    destruct s as [|a s]; simpl in *; [reflexivity|].
    destruct (Ascii.eqb a c); simpl in H; [now apply IH | reflexivity].
Qed.

(** A separator-free byte in front of the rest changes no prefix test. *)
Lemma HasPrefix_before (c : ascii) (p b k : string) :
  occurs c p = false ->
  HasPrefix (b +:+ String c k) p = HasPrefix b p.
Proof.
  revert b; induction p as [|x p IH]; intros b Hp; [now destruct b|].
  simpl in Hp. apply orb_false_elim in Hp as [Hx Hp].
  destruct b as [|y b]; simpl.
  - rewrite Ascii.eqb_sym in Hx. now rewrite Hx.
  - now rewrite IH.
Qed.

Lemma cut_app (c : ascii) (l r : string) :
  occurs c l = false -> cut c (l +:+ String c r) = Some (l, r).
Proof.
  induction l as [|a l IH]; simpl; intros H.
  - now rewrite Ascii.eqb_refl.
  - apply orb_false_elim in H as [Ha Hl]. now rewrite Ha, IH.
Qed.

Lemma cut_None (c : ascii) (s : string) :
  cut c s = None <-> occurs c s = false.
Proof.
  induction s as [|a s IH]; simpl; [tauto|].
  destruct (Ascii.eqb a c); simpl; [split; discriminate|].
  destruct (cut c s) as [[l r]|]; [|tauto].
  split; [discriminate|]. intros H. apply IH in H. discriminate.
Qed.

(** [Split] peels off the text before the first separator. *)
Lemma Split_cut (sep : ascii) (s : string) :
  Split s sep = match cut sep s with
                | Some (l, r) => l :: Split r sep
                | None => [s]
                end.
Proof.
  induction s as [|a s IH]; simpl; [reflexivity|].
  destruct (Ascii.eqb a sep); [reflexivity|].
  rewrite IH. now destruct (cut sep s) as [[l r]|].
Qed.

Lemma SplitN_2_cut (sep : ascii) (s : string) :
  SplitN s sep 2 = match cut sep s with
                   | Some (l, r) => [l; r]
                   | None => [s]
                   end.
Proof.
  induction s as [|a s IH]; [reflexivity|].
  change (SplitN (String a s) sep 2)
    with (if Ascii.eqb a sep then EmptyString :: SplitN s sep 1
          else consHead a (SplitN s sep 2)).
  simpl cut. destruct (Ascii.eqb a sep).
  - now destruct s.
  - rewrite IH. now destruct (cut sep s) as [[l r]|].
Qed.

Lemma Split_one (sep : ascii) (s : string) :
  occurs sep s = false -> Split s sep = [s].
Proof.
  intros H. rewrite Split_cut. apply cut_None in H. now rewrite H.
Qed.

Lemma Split_one_inv (sep : ascii) (s x : string) :
  Split s sep = [x] -> occurs sep s = false.
Proof.
  rewrite Split_cut. destruct (cut sep s) as [[l r]|] eqn:E.
  - rewrite Split_cut. now destruct (cut sep r) as [[l' r']|].
  - intros _. now apply cut_None.
Qed.

Lemma Split_firstLabel (host : string) :
  exists rest, Split host "." = firstLabel host :: rest.
Proof.
  unfold firstLabel. rewrite Split_cut.
  destruct (cut "." host) as [[l r]|]; eauto.
Qed.

(** The two branches of the decoding block against the two forms of the
    specification. *)
Lemma decodeVideoURL_url (s : string) :
  HasPrefix s "https://" = true ->
  decoded (decodeVideoURL s) = urlForm s.
Proof.
  intros H. unfold decodeVideoURL, urlForm.
  rewrite stripScheme_HasPrefix, H, SplitN_2_cut.
  destruct (cut "/" (TrimPrefix s "https://")) as [[host path]|]; [|reflexivity].
  destruct (Split_firstLabel host) as [rest ->]. reflexivity.
Qed.

Lemma decodeVideoURL_compact (s : string) :
  HasPrefix s "https://" = false ->
  decoded (decodeVideoURL s) = compactForm s.
Proof.
  intros H. unfold decodeVideoURL, compactForm. rewrite H, Split_cut.
  destruct (cut "," s) as [[b k]|]; [|reflexivity].
  destruct (occurs "," k) eqn:Hk.
  - destruct (Split k ",") as [|x [|y l]] eqn:E; [reflexivity| |reflexivity].
    apply Split_one_inv in E. congruence.
  - now rewrite (Split_one _ _ Hk).
Qed.

End StringFacts.

(** ** Location decoding *)

Section LocationDecoding.

Import LocationSpec.

(** C1, as stated, fails: a Location with the https:// scheme, no '/'
    after it and exactly one comma is rejected although its compact form
    decodes, and a Location that starts with the comma decodes to an
    empty bucket without any error. *)
Lemma decode_no_fallback_counterexample :
  decodeVideoURL "https://a,b" = inl InvalidS3URLFormat /\
  urlForm "https://a,b" = None /\
  compactForm "https://a,b" = Some ("https://a", "b") /\
  decodeEither "https://a,b" = Some ("https://a", "b") /\
  decodeVideoURL ",k" = inr ("", "k").
Proof. repeat split; reflexivity. Qed.

(** C1, amended: the decoding is chosen by the https:// prefix alone. A
    Location with the prefix is decoded as URL form only, any other one
    as compact form only, and the result is an error exactly when the
    chosen form does not decode; so resolution agrees with "URL form
    first, then compact form" on every Location except those with the
    prefix and no '/' after it, which always fail. *)
Theorem decodeVideoURL_by_prefix (location : string) :
  decoded (decodeVideoURL location) =
    (if HasPrefix location "https://" then urlForm location
     else compactForm location) /\
  (decoded (decodeVideoURL location) = decodeEither location \/
   HasPrefix location "https://" = true /\
   occurs "/" (TrimPrefix location "https://") = false /\
   decodeVideoURL location = inl InvalidS3URLFormat).
Proof.
  destruct (HasPrefix location "https://") eqn:H.
  - split; [now apply decodeVideoURL_url|].
    pose proof (decodeVideoURL_url _ H) as E.
    unfold decodeEither. destruct (urlForm location) as [bk|] eqn:U; [now left|].
    right. split; [reflexivity|].
    unfold urlForm in U. rewrite stripScheme_HasPrefix, H in U.
    unfold decodeVideoURL. rewrite H, SplitN_2_cut.
    destruct (cut "/" (TrimPrefix location "https://")) as [[h p]|] eqn:C;
      [discriminate|].
    split; [now apply cut_None | reflexivity].
  - split; [now apply decodeVideoURL_compact|]. left.
    rewrite (decodeVideoURL_compact _ H). unfold decodeEither, urlForm.
    now rewrite stripScheme_HasPrefix, H.
Qed.

(** C6, as stated, fails: a comma-free bucket that starts with https://
    does not survive the round trip. *)
Lemma compact_roundtrip_counterexample :
  occurs "," "https://b" = false /\ occurs "," "k" = false /\
  decodeVideoURL (compactLocation "https://b" "k") = inl InvalidS3URLFormat.
Proof. repeat split; reflexivity. Qed.

(** C6, amended: for every comma-free bucket that does not start with
    https:// and every comma-free key, decoding the compact Location
    "bucket,key" recovers exactly (bucket, key). *)
Theorem compact_roundtrip (bucket key : string) :
  HasPrefix bucket "https://" = false ->
  occurs "," bucket = false ->
  occurs "," key = false ->
  decodeVideoURL (compactLocation bucket key) = inr (bucket, key).
Proof.
  intros Hp Hb Hk. unfold decodeVideoURL, compactLocation.
  change ("," +:+ key) with (String "," key).
  rewrite HasPrefix_before by reflexivity. rewrite Hp.
  rewrite Split_cut, (cut_app _ _ _ Hb), (Split_one _ _ Hk). reflexivity.
Qed.

Lemma compact_roundtrip_witness :
  decodeVideoURL (compactLocation "my-bucket" "landscape/abc.mp4")
  = inr ("my-bucket", "landscape/abc.mp4").
Proof. apply compact_roundtrip; reflexivity. Defined.

Lemma decodeVideoURL_host_path (host path : string) :
  occurs "/" host = false ->
  decodeVideoURL ("https://" +:+ host +:+ "/" +:+ path)
  = inr (firstLabel host, path).
Proof.
  intros Hh. unfold decodeVideoURL.
  rewrite HasPrefix_app, TrimPrefix_app, SplitN_2_cut.
  change ("/" +:+ path) with (String "/" path).
  rewrite (cut_app _ _ _ Hh).
  destruct (Split_firstLabel host) as [rest ->]. reflexivity.
Qed.

Lemma string_app_assoc (a b c : string) :
  (a +:+ b) +:+ c = a +:+ (b +:+ c).
Proof.
  induction a as [|x a IH]; [reflexivity|].
  change (String x ((a +:+ b) +:+ c) = String x (a +:+ b +:+ c)).
  now rewrite IH.
Qed.

Lemma occurs_app (c : ascii) (a b : string) :
  occurs c (a +:+ b) = occurs c a || occurs c b.
Proof.
  induction a as [|x a IH]; simpl; [reflexivity|].
  now rewrite IH, orb_assoc.
Qed.

(** C7: the URL-form example decodes to bucket "my-bucket" and key
    "landscape/abc.mp4"; in general, for a host free of '/', the bucket
    is the host's first dot-delimited label (the whole host when it has
    no dot) and the key is everything after the first '/' that follows
    the host. *)
Theorem url_form_decoding :
  decodeVideoURL
    "https://my-bucket.s3.eu-north-1.amazonaws.com/landscape/abc.mp4"
  = inr ("my-bucket", "landscape/abc.mp4") /\
  (forall label domain path : string,
     occurs "." label = false -> occurs "/" label = false ->
     occurs "/" domain = false ->
     decodeVideoURL ("https://" +:+ label +:+ "." +:+ domain +:+ "/" +:+ path)
     = inr (label, path)) /\
  (forall host path : string,
     occurs "." host = false -> occurs "/" host = false ->
     decodeVideoURL ("https://" +:+ host +:+ "/" +:+ path) = inr (host, path)).
Proof.
  split; [reflexivity|]. split.
  - intros label domain path Hd Hl Hdom.
    assert (A : "https://" +:+ label +:+ "." +:+ domain +:+ "/" +:+ path
                = "https://" +:+ (label +:+ "." +:+ domain) +:+ "/" +:+ path).
    { now rewrite !string_app_assoc. }
    rewrite A, decodeVideoURL_host_path.
    + unfold firstLabel. change ("." +:+ domain) with (String "." domain).
      now rewrite (cut_app _ _ _ Hd).
    + rewrite occurs_app, Hl. simpl. exact Hdom.
  - intros host path Hd Hh. rewrite decodeVideoURL_host_path by exact Hh.
    unfold firstLabel. apply cut_None in Hd. now rewrite Hd.
Qed.

Lemma url_form_decoding_witness :
  decodeVideoURL ("https://" +:+ "tubely-private-663" +:+ "."
                  +:+ "s3.eu-north-1.amazonaws.com" +:+ "/" +:+ "portrait/x.mp4")
  = inr ("tubely-private-663", "portrait/x.mp4").
Proof.
  apply (proj1 (proj2 url_form_decoding)); reflexivity.
Defined.

End LocationDecoding.

(** ** The classifier's guard *)

Lemma firstDimensions_none (streams : list Stream) :
  (forall s, In s streams -> Width s = 0%Z \/ Height s = 0%Z) ->
  firstDimensions streams = (0, 0)%Z.
Proof.
  induction streams as [|s rest IH]; intros H; [reflexivity|].
  simpl. destruct (H s (or_introl eq_refl)) as [E|E]; rewrite E; simpl.
  - apply IH. intros x Hx. apply H. now right.
  - rewrite andb_false_r. apply IH. intros x Hx. apply H. now right.
Qed.

Lemma firstDimensions_some (streams : list Stream) (w h : Z) :
  firstDimensions streams = (w, h) -> w <> 0%Z ->
  h <> 0%Z /\ In {| Width := w; Height := h |} streams.
Proof.
  induction streams as [|s rest IH]; simpl; intros E Hw.
  - congruence.
  - destruct (Z.eqb_spec (Width s) 0) as [W|W]; simpl in E.
    + destruct (IH E Hw); auto.
    + destruct (Z.eqb_spec (Height s) 0) as [Hh|Hh]; simpl in E.
      * destruct (IH E Hw); auto.
      * inversion E; subst. split; [assumption|]. left. now destruct s.
Qed.

(** C10: when no stream reports both a non-zero width and a non-zero
    height (no stream at all included), classification fails with an
    error; and whenever classification does reach the division, it
    divides the non-zero width of a reported stream by its non-zero
    height. *)
Theorem classification_guards_division :
  (forall streams : list Stream,
     (forall s, In s streams -> Width s = 0%Z \/ Height s = 0%Z) ->
     getVideoAspectRatio (ProbeOutput streams)
     = inl (if (List.length streams =? 0)%nat then NoStreamsFound
            else NoValidVideoDimensions)) /\
  (forall (probe : ProbeResult) (ratio : string),
     getVideoAspectRatio probe = inr ratio ->
     exists streams w h,
       probe = ProbeOutput streams /\
       In {| Width := w; Height := h |} streams /\
       w <> 0%Z /\ h <> 0%Z /\ ratio = classifyAspectRatio w h).
Proof.
  split.
  - intros streams H. unfold getVideoAspectRatio.
    destruct (List.length streams =? 0)%nat; [reflexivity|].
    now rewrite (firstDimensions_none _ H).
  - intros [| |streams] ratio; simpl; try discriminate.
    destruct (List.length streams =? 0)%nat; [discriminate|].
    destruct (firstDimensions streams) as [w h] eqn:E.
    destruct (Z.eqb_spec w 0) as [W|W]; simpl; [discriminate|].
    destruct (Z.eqb_spec h 0) as [Hh|Hh]; simpl; [discriminate|].
    intros [= <-]. exists streams, w, h.
    destruct (firstDimensions_some _ _ _ E W). auto.
Qed.

Lemma classification_guards_division_witness :
  getVideoAspectRatio (ProbeOutput [ {| Width := 1920; Height := 0 |} ])
  = inl NoValidVideoDimensions /\
  getVideoAspectRatio (ProbeOutput []) = inl NoStreamsFound.
Proof.
  split.
  - apply (proj1 classification_guards_division
             [ {| Width := 1920; Height := 0 |} ]).
    intros s [<-|[]]. now right.
  - apply (proj1 classification_guards_division []). intros s [].
Defined.

(** ** Paths *)

Section Paths.

Import LocationSpec.

Lemma cleanElem_plain (rooted : bool) (out : list string) (elem : string) :
  String.eqb elem "" = false -> String.eqb elem "." = false ->
  String.eqb elem ".." = false ->
  filepath.cleanElem rooted out elem = elem :: out.
Proof. intros E1 E2 E3. unfold filepath.cleanElem. now rewrite E1, E2, E3. Qed.

Lemma Join_dir_file (dir file : string) :
  plainElem dir = true -> plainElem file = true ->
  filepath.Join [dir; file] = dir +:+ "/" +:+ file.
Proof.
  unfold plainElem. intros Hd Hf.
  apply negb_true_iff in Hd, Hf.
  repeat (apply orb_false_elim in Hd as [Hd ?]).
  repeat (apply orb_false_elim in Hf as [Hf ?]).
  unfold filepath.Join. rewrite Hd.
  change (GoStrings.Join [dir; file] "/") with (dir +:+ String "/" file).
  unfold filepath.Clean.
  assert (E : String.eqb (dir +:+ String "/" file) "" = false).
  { destruct dir; [discriminate | reflexivity]. }
  assert (R : HasPrefix (dir +:+ String "/" file) "/" = false).
  { destruct dir as [|c d]; [discriminate|].
    simpl in *. apply orb_false_elim in H as [-> _]. reflexivity. }
  rewrite E, R, Split_cut, cut_app, Split_one by assumption.
  cbn [fold_left]. rewrite !cleanElem_plain by assumption.
  cbn [rev app GoStrings.Join].
  change ("/" +:+ file) with (String "/" file). now rewrite E.
Qed.

Lemma length_app (a b : string) :
  String.length (a +:+ b) = (String.length a + String.length b)%nat.
Proof.
  induction a as [|x a IH]; [reflexivity|].
  change (S (String.length (a +:+ b)) = S (String.length a + String.length b)).
  now rewrite IH.
Qed.

Lemma plainElem_mp4 (assetID : string) :
  occurs "/" assetID = false -> plainElem (assetID +:+ ".mp4") = true.
Proof.
  intros H. unfold plainElem. rewrite occurs_app, H.
  assert (L : forall t, (String.length t < 4)%nat ->
                        String.eqb (assetID +:+ ".mp4") t = false).
  { intros t Ht. apply String.eqb_neq. intros E.
    apply (f_equal String.length) in E. rewrite length_app in E.
    simpl in E. lia. }
  rewrite !L by (simpl; lia). reflexivity.
Qed.

End Paths.

(** ** The upload handlers *)

Set Warnings "-clear-no-such-hyp".

(** Unfolds a served handler down to the case analysis on what its
    collaborators answer. *)
Ltac handler_unfold :=
  unfold serve, handlerUploadVideo, handlerUploadThumbnail, runFastStart,
    respondWithJSON, orRespond, okOrRespond, respondWithError,
    defer, effect, world, decoded;
  unfold mbind, mret, Handler_bind, Handler_ret.

Ltac handler_step :=
  match goal with
  | |- context [match ?x with _ => _ end] =>
      lazymatch x with
      | context [match _ with _ => _ end] => fail
      | _ => idtac
      end;
      match type of x with
      | option _ => destruct x eqn:?
      | bool => destruct x eqn:?
      | sum _ _ => destruct x eqn:?
      end
  end.

Ltac handler_cases :=
  repeat (handler_step; cbn [fst snd decoded] in * );
  cbn [fst snd runDeferred runDeferredCall Remove record addFile
       putObject storeVideo db files objects trace status] in *.

Lemma GetVideo_unknown (env : Collaborators) (w : World) (videoID : UUID) :
  db w !! videoID = None ->
  GetVideo env w videoID
  = inl (if storeFailure env then StoreFailure else NotFoundError).
Proof. intros H. unfold GetVideo. rewrite H. now destruct (storeFailure env). Qed.

(** C3 asks for HTTP 404 when the record does not exist; what the video
    handler does there: for a well-formed record id and a valid
    credential whose record is not in the metadata store, it answers 500
    with "Couldn't get video metadata". *)
Theorem upload_video_unknown_record (cfg : apiConfig) (env : Collaborators)
    (r : Request) (w : World) (videoID : UUID) (token : string) (userID : UUID) :
  uuid_Parse env (PathValue r "videoID") = Some videoID ->
  GetBearerToken env (Header r) = Some token ->
  ValidateJWT env token = Some userID ->
  db w !! videoID = None ->
  fst (serve (handlerUploadVideo cfg env r) w)
  = {| status := 500; body := ErrorBody "Couldn't get video metadata" |}.
Proof.
  intros Hid Htok Hjwt Hdb. handler_unfold.
  rewrite Hid, Htok, Hjwt, (GetVideo_unknown _ _ _ Hdb). reflexivity.
Qed.

Lemma upload_video_unknown_record_witness :
  fst (serve (handlerUploadVideo Samples.cfg Samples.env
                (Samples.request "v2" "alice" "video/mp4")) Samples.w)
  = {| status := 500; body := ErrorBody "Couldn't get video metadata" |}.
Proof.
  apply (upload_video_unknown_record _ _ _ _ "v2" "alice" "alice");
    reflexivity.
Defined.

(** No exit of the video handler carries status 404. *)
Lemma upload_video_never_404 (cfg : apiConfig) (env : Collaborators)
    (r : Request) (w : World) :
  status (fst (serve (handlerUploadVideo cfg env r) w)) <> 404%Z.
Proof. handler_unfold. handler_cases; discriminate. Qed.

(** The thumbnail handler answers the same lookup failure with 404. *)
Lemma upload_thumbnail_unknown_record_404 :
  fst (serve (handlerUploadThumbnail Samples.cfg Samples.env
                (Samples.request "v2" "alice" "image/png")) Samples.w)
  = {| status := 404; body := ErrorBody "Video not found" |}.
Proof. reflexivity. Qed.

(** C4: the record is written only after the object-store upload has
    succeeded. When staging, classification, optimization or publish
    fails the metadata store is left as it was and no update was made;
    and whenever an update is made, the events of the request start with
    staging, optimization and the upload of the object whose compact
    Location the updated record carries. *)
Theorem location_written_after_publish (cfg : apiConfig)
    (env : Collaborators) (r : Request) (w : World) :
  let w' := snd (serve (handlerUploadVideo cfg env r) w) in
  exists evs, trace w' = (trace w ++ evs)%list /\
    (pipelineSucceeds env = false ->
     db w' = db w /\ forall video, ~ In (EvUpdateVideo video) evs) /\
    ((db w' = db w /\ forall video, ~ In (EvUpdateVideo video) evs) \/
     pipelineSucceeds env = true /\
     exists tempFile processed key video rest,
       evs = EvCreateTemp tempFile :: EvFastStart tempFile processed
             :: EvPutObject (s3Bucket cfg) key :: EvUpdateVideo video :: rest /\
       objects w' !! (s3Bucket cfg, key) = Some "video/mp4" /\
       VideoURL video = Some (compactLocation (s3Bucket cfg) key) /\
       db w' = <[ID video := video]> (db w)).
Proof.
  cbv zeta. unfold pipelineSucceeds. handler_unfold. handler_cases.
  all: eexists; split; [first [ rewrite <- ?app_assoc; reflexivity
                              | symmetry; apply app_nil_r ] |].
  all: first
    [ solve [ split; [intros _|left];
              (split; [reflexivity|]; intros video HIn; simpl in HIn;
               intuition discriminate) ]
    | split; [discriminate|]; right; split; [reflexivity|];
      do 5 eexists; split; [reflexivity|];
      split; [apply lookup_insert_eq|]; split; reflexivity ].
Qed.

Lemma location_written_after_publish_witness :
  db (snd (serve (handlerUploadVideo Samples.cfg Samples.envPublishFails
                    (Samples.request "v1" "alice" "video/mp4")) Samples.w))
  = db Samples.w.
Proof.
  pose proof (location_written_after_publish Samples.cfg
                Samples.envPublishFails
                (Samples.request "v1" "alice" "video/mp4") Samples.w) as H.
  cbv zeta in H. destruct H as (evs & _ & Hfail & _).
  exact (proj1 (Hfail eq_refl)).
Defined.



(** C8, as stated, fails: a request that declares image/png but carries
    no credential is answered 401, not 400. *)
Lemma wrong_content_type_counterexample :
  ContentType (Samples.part "image/png") <> "video/mp4" /\
  fst (serve (handlerUploadVideo Samples.cfg Samples.env
                (Samples.request "v1" "" "image/png")) Samples.w)
  = {| status := 401; body := ErrorBody "Couldn't find JWT" |}.
Proof. split; [discriminate | reflexivity]. Qed.

(** C8, amended: a request whose record id, credential, record lookup,
    ownership and video part pass, and whose media type is not exactly
    video/mp4 (or does not parse), is answered 400; and no request with
    such a media type, whatever its other fields, creates a temporary
    file or has any other effect. *)
Theorem wrong_content_type_rejected (cfg : apiConfig) (env : Collaborators)
    (r : Request) (w : World) (file : FilePart) :
  FormFile r "video" = Some file ->
  ParseMediaType env (ContentType file) <> Some "video/mp4" ->
  let out := serve (handlerUploadVideo cfg env r) w in
  snd out = w /\ status (fst out) <> 200%Z /\
  (forall videoID token video,
     uuid_Parse env (PathValue r "videoID") = Some videoID ->
     GetBearerToken env (Header r) = Some token ->
     ValidateJWT env token = Some (UserID video) ->
     GetVideo env w videoID = inr video ->
     status (fst out) = 400%Z).
Proof.
  intros Hfile Hct. cbv zeta. handler_unfold. rewrite Hfile.
  assert (Hmp4 : forall s, ParseMediaType env (ContentType file) = Some s ->
                           String.eqb s "video/mp4" = false).
  { intros s E. apply String.eqb_neq. intros ->. contradiction. }
  destruct (ParseMediaType env (ContentType file)) as [mediaType|] eqn:Hm.
  - rewrite (Hmp4 _ eq_refl). handler_cases.
    all: split; [reflexivity|]; split; [discriminate|].
    all: intros videoID token video Hid Htok Hjwt Hget; try reflexivity.
    all: try congruence.
    all: assert (u = videoID) by congruence; subst;
      assert (s = token) by congruence; subst;
      rewrite Hget in *; try discriminate.
    assert (u0 = UserID video) by congruence. subst.
    assert (v = video) by congruence. subst.
    rewrite String.eqb_refl in *. discriminate.
  - handler_cases.
    all: split; [reflexivity|]; split; [discriminate|].
    all: intros videoID token video Hid Htok Hjwt Hget; try reflexivity.
    all: try congruence.
    all: assert (u = videoID) by congruence; subst;
      assert (s = token) by congruence; subst;
      rewrite Hget in *; try discriminate.
    assert (u0 = UserID video) by congruence. subst.
    assert (v = video) by congruence. subst.
    rewrite String.eqb_refl in *. discriminate.
Qed.

Lemma wrong_content_type_rejected_witness :
  let out := serve (handlerUploadVideo Samples.cfg Samples.env
                      (Samples.request "v1" "alice" "image/png")) Samples.w in
  snd out = Samples.w /\ status (fst out) = 400%Z.
Proof.
  cbv zeta.
  destruct (wrong_content_type_rejected Samples.cfg Samples.env
              (Samples.request "v1" "alice" "image/png") Samples.w
              (Samples.part "image/png") eq_refl) as (Hw & _ & H400).
  - discriminate.
  - split; [exact Hw|].
    apply (H400 "v1" "alice" Samples.aliceVideo); reflexivity.
Defined.

Lemma plainElem_directoryFor (videoAspectRatio : string) :
  plainElem (directoryFor videoAspectRatio) = true.
Proof.
  unfold directoryFor.
  destruct (String.eqb videoAspectRatio "16:9"); [reflexivity|].
  destruct (String.eqb videoAspectRatio "9:16"); reflexivity.
Qed.

(** C9: on every successful upload (the generated id holding no '/'),
    the object is stored under "<dir>/<id>.mp4", where dir is landscape
    when classification returned 16:9, portrait when it returned 9:16
    and other otherwise; the record handed to the metadata store and
    persisted there is the record looked up with its video Location set
    to exactly the compact form "<bucket>,<dir>/<id>.mp4" and its other
    fields as they were. *)
Theorem published_key_layout (cfg : apiConfig) (env : Collaborators)
    (r : Request) (w : World) :
  let out := serve (handlerUploadVideo cfg env r) w in
  status (fst out) = 200%Z ->
  LocationSpec.occurs "/" (newAssetID env) = false ->
  exists videoID video tempFile videoAspectRatio,
    uuid_Parse env (PathValue r "videoID") = Some videoID /\
    GetVideo env w videoID = inr video /\
    CreateTemp env = Some tempFile /\
    getVideoAspectRatio (ffprobe env tempFile) = inr videoAspectRatio /\
    let dir := if String.eqb videoAspectRatio "16:9" then "landscape"
               else if String.eqb videoAspectRatio "9:16" then "portrait"
               else "other" in
    let key := dir +:+ "/" +:+ newAssetID env +:+ ".mp4" in
    let persisted :=
      {| ID := ID video; UserID := UserID video;
         VideoURL := Some (s3Bucket cfg +:+ "," +:+ key);
         ThumbnailURL := ThumbnailURL video |} in
    objects (snd out) !! (s3Bucket cfg, key) = Some "video/mp4" /\
    In (EvPutObject (s3Bucket cfg) key) (trace (snd out)) /\
    In (EvUpdateVideo persisted) (trace (snd out)) /\
    db (snd out) !! ID video = Some persisted.
Proof.
  cbv zeta. intros H200 Hid. revert H200.
  handler_unfold. handler_cases; try discriminate. intros _.
  unfold getAssetPath.
  rewrite Join_dir_file
    by (apply plainElem_directoryFor || now apply plainElem_mp4).
  exists u, v, s1, s2. do 4 (split; [assumption || reflexivity|]).
  fold (directoryFor s2).
  split; [apply lookup_insert_eq|]. split; [|split].
  - rewrite !in_app_iff. cbn [In]. tauto.
  - rewrite !in_app_iff. cbn [In]. tauto.
  - apply lookup_insert_eq.
Qed.

Lemma published_key_layout_witness :
  let out := serve (handlerUploadVideo Samples.cfg Samples.env
                      (Samples.request "v1" "alice" "video/mp4")) Samples.w in
  objects (snd out) !! ("my-bucket", "landscape/abc.mp4") = Some "video/mp4" /\
  db (snd out) !! "v1"
  = Some {| ID := "v1"; UserID := "alice";
            VideoURL := Some "my-bucket,landscape/abc.mp4";
            ThumbnailURL := None |}.
Proof.
  cbv zeta.
  destruct (published_key_layout Samples.cfg Samples.env
              (Samples.request "v1" "alice" "video/mp4") Samples.w
              eq_refl eq_refl)
    as (videoID & video & tempFile & ratio & Hid & Hget & Htmp & Hr
        & Hobj & _ & _ & Hdb).
  injection Hid as <-. injection Hget as <-. injection Htmp as <-.
  injection Hr as <-. split; [exact Hobj | exact Hdb].
Defined.

(** ** float64 arithmetic: mantissas, shifts and rounding *)

Section Float64Rounding.

Import Float64Value.
Local Open Scope Z_scope.

Lemma digits_pos (m : positive) : 0 < digits m.
Proof. unfold digits. lia. Qed.

Lemma digits_bounds (m : positive) :
  2 ^ (digits m - 1) <= Zpos m < 2 ^ digits m.
Proof.
  unfold digits. induction m as [m IH|m IH|]; cbn [digits2_pos].
  - rewrite Pos2Z.inj_succ, Pos2Z.inj_xI.
    replace (Z.succ (Zpos (digits2_pos m)) - 1)
      with (Z.succ (Zpos (digits2_pos m) - 1)) by lia.
    rewrite !Z.pow_succ_r by lia. lia.
  - rewrite Pos2Z.inj_succ. change (Zpos m~0) with (2 * Zpos m).
    replace (Z.succ (Zpos (digits2_pos m)) - 1)
      with (Z.succ (Zpos (digits2_pos m) - 1)) by lia.
    rewrite !Z.pow_succ_r by lia. lia.
  - simpl. lia.
Qed.

Lemma digits_unique (m : positive) (d : Z) :
  2 ^ (d - 1) <= Zpos m < 2 ^ d -> digits m = d.
Proof.
  intros [Hl Hu]. pose proof (digits_bounds m) as [Bl Bu].
  pose proof (digits_pos m) as P.
  assert (0 < d).
  { destruct (Z.lt_trichotomy d 0) as [N|[->|Q]]; [|simpl in Hu; lia|exact Q].
    rewrite Z.pow_neg_r in Hu by lia. lia. }
  destruct (Z.lt_trichotomy (digits m) d) as [L|[E|G]]; [|exact E|].
  - assert (2 ^ digits m <= 2 ^ (d - 1)) by (apply Z.pow_le_mono_r; lia). lia.
  - assert (2 ^ d <= 2 ^ (digits m - 1)) by (apply Z.pow_le_mono_r; lia). lia.
Qed.

Lemma iter_xO (m k : positive) :
  Zpos (Pos.iter xO m k) = Zpos m * 2 ^ Zpos k.
Proof.
  induction k as [|k IH] using Pos.peano_ind.
  - simpl. lia.
  - rewrite Pos.iter_succ, (Pos2Z.inj_xO (Pos.iter xO m k)), IH,
      Pos2Z.inj_succ, Z.pow_succ_r by lia.
    lia.
Qed.

Lemma iter_pos_iter {A} (f : A -> A) (p : positive) (x : A) :
  SpecFloat.iter_pos f p x = Pos.iter f x p.
Proof.
  revert x. induction p as [p IH|p IH|]; intros x; simpl.
  - rewrite !IH, <- !Pos.iter_swap. reflexivity.
  - rewrite !IH. reflexivity.
  - reflexivity.
Qed.

(** *** Right shifts keep track of where the exact value lies *)

Lemma loc_of_record (m : Z) (l : location) :
  loc_of_shr_record (shr_record_of_loc m l) = l /\
  shr_m (shr_record_of_loc m l) = m.
Proof. destruct l as [|[]]; split; reflexivity. Qed.

Ltac loc_solve :=
  cbn [loc_of_shr_record orb] in *;
  repeat match goal with
         | H : _ /\ _ |- _ => destruct H
         | |- _ /\ _ => split
         end;
  rewrite ?Z.compare_lt_iff, ?Z.compare_gt_iff, ?Z.compare_eq_iff in *;
  try lia.

Lemma shr_1_located (N D : Z) (mrs : shr_record) :
  0 < D -> 0 <= shr_m mrs ->
  located N D (shr_m mrs) (loc_of_shr_record mrs) ->
  located N (2 * D) (shr_m (shr_1 mrs)) (loc_of_shr_record (shr_1 mrs)) /\
  shr_m (shr_1 mrs) = shr_m mrs / 2.
Proof.
  intros HD Hm. destruct mrs as [m r s]. cbn [shr_m] in *.
  unfold located. intros [Hb Hl].
  assert (Hdiv : forall p, Zpos p~0 / 2 = Zpos p /\ Zpos p~1 / 2 = Zpos p).
  { intros p. split.
    - change (Zpos p~0) with (2 * Zpos p). symmetry.
      apply Z.div_unique_exact; lia.
    - rewrite Pos2Z.inj_xI. symmetry.
      apply (Z.div_unique _ _ _ 1); lia. }
  destruct m as [|[p|p|]|p]; try lia.
  - cbn [shr_1 shr_m]. split; [|reflexivity].
    destruct r, s; loc_solve.
  - cbn [shr_1 shr_m]. split; [|symmetry; apply Hdiv].
    rewrite Pos2Z.inj_xI in *. destruct r, s; loc_solve.
  - cbn [shr_1 shr_m]. split; [|symmetry; apply Hdiv].
    change (Zpos p~0) with (2 * Zpos p) in *. destruct r, s; loc_solve.
  - cbn [shr_1 shr_m]. split; [|reflexivity].
    destruct r, s; loc_solve.
Qed.

Lemma iter_shr_1_located (N D : Z) (mrs : shr_record) (p : positive) :
  0 < D -> 0 <= shr_m mrs ->
  located N D (shr_m mrs) (loc_of_shr_record mrs) ->
  let mrs' := Pos.iter shr_1 mrs p in
  located N (2 ^ Zpos p * D) (shr_m mrs') (loc_of_shr_record mrs') /\
  shr_m mrs' = shr_m mrs / 2 ^ Zpos p /\ 0 <= shr_m mrs'.
Proof.
  intros HD Hm Hloc. cbv zeta.
  induction p as [|p IH] using Pos.peano_ind.
  - cbn [Pos.iter]. change (2 ^ 1) with 2.
    destruct (shr_1_located N D mrs HD Hm Hloc) as [L E].
    split; [exact L | split; [exact E | rewrite E; apply Z.div_pos; lia]].
  - destruct IH as (L & E & P).
    assert (H2 : 0 < 2 ^ Zpos p) by (apply Z.pow_pos_nonneg; lia).
    rewrite Pos.iter_succ, Pos2Z.inj_succ, Z.pow_succ_r by lia.
    destruct (shr_1_located N (2 ^ Zpos p * D) (Pos.iter shr_1 mrs p))
      as [L' E']; [lia | exact P | exact L |].
    rewrite <- Z.mul_assoc. split; [exact L'|].
    rewrite E'. split; [|apply Z.div_pos; lia].
    rewrite E, Z.div_div by lia.
    now rewrite (Z.mul_comm (2 ^ Zpos p) 2).
Qed.

Lemma shr_located (N D : Z) (mrs : shr_record) (e k : Z) :
  0 < D -> 0 <= k -> 0 <= shr_m mrs ->
  located N D (shr_m mrs) (loc_of_shr_record mrs) ->
  let mrs' := fst (shr mrs e k) in
  located N (2 ^ k * D) (shr_m mrs') (loc_of_shr_record mrs') /\
  shr_m mrs' = shr_m mrs / 2 ^ k /\
  snd (shr mrs e k) = e + k.
Proof.
  intros HD Hk Hm Hloc. destruct k as [|p|p]; [| |lia].
  - cbn [shr fst snd]. rewrite Z.pow_0_r, Z.mul_1_l, Z.div_1_r, Z.add_0_r. auto.
  - cbn [shr fst snd]. rewrite iter_pos_iter.
    destruct (iter_shr_1_located N D mrs p HD Hm Hloc) as (L & E & _). auto.
Qed.

Lemma fexp_regular (x : Z) : -1021 <= x -> fexp 53 1024 x = x - 53.
Proof. intros H. unfold fexp, emin. lia. Qed.

Lemma shr_fexp_spec (p : positive) (e : Z) (l : location) (N D : Z) :
  0 < D -> located N D (Zpos p) l ->
  53 <= digits p -> -1074 <= e + (digits p - 53) ->
  let k := digits p - 53 in
  let r := shr_fexp 53 1024 (Zpos p) e l in
  located N (2 ^ k * D) (shr_m (fst r)) (loc_of_shr_record (fst r)) /\
  shr_m (fst r) = Zpos p / 2 ^ k /\ snd r = e + k.
Proof.
  intros HD Hloc Hd He. cbv zeta. unfold shr_fexp.
  change (Zdigits2 (Zpos p)) with (digits p).
  rewrite fexp_regular by lia.
  replace (digits p + e - 53 - e) with (digits p - 53) by lia.
  destruct (loc_of_record (Zpos p) l) as [El Em].
  destruct (shr_located N D (shr_record_of_loc (Zpos p) l) e (digits p - 53))
    as (L & M & S); try lia.
  - now rewrite El, Em.
  - rewrite Em in M. auto.
Qed.

Lemma round_nearest_even_spec (N D m : Z) (l : location) :
  0 < D -> located N D m l ->
  (round_nearest_even m l = m \/ round_nearest_even m l = m + 1) /\
  2 * Z.abs (round_nearest_even m l * D - N) <= D.
Proof.
  intros HD [Hb Hl]. destruct l as [|[]]; cbn [round_nearest_even].
  - split; [now left | lia].
  - destruct Hl as [_ Hc]. rewrite Z.compare_eq_iff in Hc.
    destruct (Z.even m); split; auto; lia.
  - destruct Hl as [_ Hc]. rewrite Z.compare_lt_iff in Hc. split; [now left | lia].
  - destruct Hl as [_ Hc]. rewrite Z.compare_gt_iff in Hc. split; [now right | lia].
Qed.

Lemma pack_spec (s : bool) (m e : Z) :
  2 ^ 52 <= m <= 2 ^ 53 -> -256 <= e < 971 ->
  regular (pack s m e) /\
  scaled (pack s m e) = cond_Zopp s (m * 2 ^ (e + 256)).
Proof.
  intros Hm He. unfold pack. destruct (Z.ltb_spec m (2 ^ 53)) as [L|G].
  - cbn [regular scaled]. rewrite Z2Pos.id by lia. split; [|reflexivity].
    split; [|lia]. apply digits_unique. rewrite Z2Pos.id by lia.
    change (53 - 1) with 52. lia.
  - assert (m = 2 ^ 53) as -> by lia. split.
    + split; [reflexivity | lia].
    + cbn [scaled]. f_equal.
      replace (e + 1 + 256) with (Z.succ (e + 256)) by lia.
      rewrite Z.pow_succ_r by lia.
      change (Zpos (Z.to_pos (2 ^ 52))) with (2 ^ 52).
      change (2 ^ 53) with (2 * 2 ^ 52). lia.
Qed.

(** Rounding of a mantissa of at least 53 bits: the result is the
    packed nearest 53-bit mantissa. *)
Lemma round_aux_spec (s : bool) (q : positive) (e : Z) (l : location)
    (N D : Z) :
  0 < D -> located N D (Zpos q) l ->
  53 <= digits q ->
  -1074 <= e + (digits q - 53) -> e + (digits q - 53) < 971 ->
  exists m',
    2 ^ 52 <= m' <= 2 ^ 53 /\
    2 * Z.abs (m' * (2 ^ (digits q - 53) * D) - N) <= 2 ^ (digits q - 53) * D /\
    binary_round_aux 53 1024 s (Zpos q) e l = pack s m' (e + (digits q - 53)).
Proof.
  intros HD Hloc Hd Hlo Hhi. set (k := digits q - 53) in *.
  assert (Hk : 0 < 2 ^ k) by (apply Z.pow_pos_nonneg; lia).
  destruct (shr_fexp_spec q e l N D HD Hloc Hd Hlo) as (L & M & S).
  fold k in L, M, S.
  unfold binary_round_aux.
  destruct (shr_fexp 53 1024 (Zpos q) e l) as [mrs1 e1]. cbn [fst snd] in *.
  subst e1.
  destruct (round_nearest_even_spec N (2 ^ k * D) _ _ ltac:(lia) L) as [Hr Hn].
  set (m' := round_nearest_even (shr_m mrs1) (loc_of_shr_record mrs1)) in *.
  pose proof (digits_bounds q) as [Bl Bu].
  assert (Hm1 : 2 ^ 52 <= shr_m mrs1 < 2 ^ 53).
  { rewrite M. replace (digits q) with (k + 53) in Bu by (unfold k; lia).
    replace (digits q - 1) with (k + 52) in Bl by (unfold k; lia).
    rewrite Z.pow_add_r in Bl, Bu by lia. split.
    - apply Z.div_le_lower_bound; lia.
    - apply Z.div_lt_upper_bound; lia. }
  assert (Hm' : 2 ^ 52 <= m' <= 2 ^ 53) by lia.
  exists m'. split; [exact Hm'|]. split; [exact Hn|].
  unfold pack. destruct (Z.ltb_spec m' (2 ^ 53)) as [Lt|Ge].
  - destruct m' as [|p'|p'] eqn:Em; try lia.
    assert (Dp : digits p' = 53).
    { apply digits_unique. change (53 - 1) with 52. lia. }
    unfold shr_fexp. change (Zdigits2 (Zpos p')) with (digits p').
    rewrite Dp, fexp_regular by lia.
    replace (53 + (e + k) - 53 - (e + k)) with 0 by lia.
    cbn [shr shr_record_of_loc shr_m].
    destruct (Z.leb_spec (e + k) (1024 - 53)); [reflexivity | lia].
  - assert (Em : m' = 2 ^ 53) by lia. rewrite Em.
    unfold shr_fexp. change (Zdigits2 (2 ^ 53)) with 54.
    rewrite fexp_regular by lia.
    replace (54 + (e + k) - 53 - (e + k)) with 1 by lia.
    cbn [shr shr_record_of_loc SpecFloat.iter_pos].
    change (shr_m (shr_1 {| shr_m := 2 ^ 53; shr_r := false; shr_s := false |}))
      with (2 ^ 52).
    change (2 ^ 52) with (Zpos (Z.to_pos (2 ^ 52))) at 1.
    cbv iota beta.
    destruct (Z.leb_spec (e + k + 1) (1024 - 53)); [reflexivity | lia].
Qed.

End Float64Rounding.

(** ** float64 arithmetic: conversion, subtraction, comparison, division *)

Section Float64Operations.

Import Float64Value.
Local Open Scope Z_scope.

Lemma located_exact (m : Z) : located m 1 m loc_Exact.
Proof. unfold located. lia. Qed.

Lemma pow2_pos (k : Z) : 0 <= k -> 0 < 2 ^ k.
Proof. intros. apply Z.pow_pos_nonneg; lia. Qed.

Lemma pow2_split (a b : Z) : 0 <= a -> 0 <= b -> 2 ^ (a + b) = 2 ^ a * 2 ^ b.
Proof. intros. apply Z.pow_add_r; assumption. Qed.

(** [binary_round] of a positive mantissa, away from the subnormal and
    overflow ranges: short mantissas are shifted left and kept exactly,
    long ones are rounded to the nearest 53-bit mantissa. *)
Lemma binary_round_spec (s : bool) (p : positive) (e : Z) :
  -1074 <= e + (digits p - 53) -> e + (digits p - 53) < 971 ->
  exists m',
    2 ^ 52 <= m' <= 2 ^ 53 /\
    binary_round 53 1024 s p e = pack s m' (e + (digits p - 53)) /\
    (digits p <= 53 -> m' = Zpos p * 2 ^ (53 - digits p)) /\
    (53 <= digits p ->
     2 * Z.abs (m' * 2 ^ (digits p - 53) - Zpos p) <= 2 ^ (digits p - 53)).
Proof.
  intros Hlo Hhi. unfold binary_round.
  change (Zpos (digits2_pos p)) with (digits p).
  pose proof (digits_pos p) as Dp. pose proof (digits_bounds p) as [Bl Bu].
  rewrite fexp_regular by lia. unfold shl_align.
  destruct (digits p + e - 53 - e) as [|k|k] eqn:Ek.
  - (* exactly 53 bits *)
    assert (D53 : digits p = 53) by lia.
    destruct (round_aux_spec s p e loc_Exact (Zpos p) 1) as (m' & Hm & Hn & Hr);
      try lia; [apply located_exact|].
    rewrite D53 in *. change (53 - 53) with 0 in *. change (2 ^ 0) with 1 in *.
    exists m'. split; [exact Hm|]. split; [exact Hr|]. split; intros _; lia.
  - (* more than 53 bits *)
    destruct (round_aux_spec s p e loc_Exact (Zpos p) 1) as (m' & Hm & Hn & Hr);
      try lia; [apply located_exact|].
    exists m'. split; [exact Hm|]. split; [exact Hr|]. split; [lia|].
    intros _. rewrite Z.mul_1_r in Hn. exact Hn.
  - (* fewer than 53 bits: shifted left by k *)
    assert (Hk : Zpos k = 53 - digits p) by lia.
    pose proof (iter_xO p k) as Hz. rewrite Hk in Hz.
    assert (H2 : 0 < 2 ^ (53 - digits p)) by (apply pow2_pos; lia).
    assert (Dz : digits (Pos.iter xO p k) = 53).
    { apply digits_unique. rewrite Hz. change (53 - 1) with 52.
      assert (A1 : 2 ^ 52 = 2 ^ (digits p - 1) * 2 ^ (53 - digits p))
        by (rewrite <- pow2_split by lia; f_equal; lia).
      assert (A2 : 2 ^ 53 = 2 ^ digits p * 2 ^ (53 - digits p))
        by (rewrite <- pow2_split by lia; f_equal; lia).
      rewrite A1, A2. split.
      - apply Z.mul_le_mono_nonneg_r; lia.
      - apply Z.mul_lt_mono_pos_r; lia. }
    destruct (round_aux_spec s (Pos.iter xO p k) (digits p + e - 53) loc_Exact
                (Zpos (Pos.iter xO p k)) 1) as (m' & Hm & Hn & Hr);
      try lia; [apply located_exact|].
    rewrite Dz in *. change (53 - 53) with 0 in *. change (2 ^ 0) with 1 in *.
    exists m'. split; [exact Hm|]. split.
    + rewrite Hr. f_equal. lia.
    + split; [intros _; lia | intros; lia].
Qed.

Lemma digits_le (p : positive) (d : Z) : Zpos p < 2 ^ d -> digits p <= d.
Proof.
  intros H. pose proof (digits_bounds p) as [Bl _]. pose proof (digits_pos p).
  destruct (Z.le_gt_cases (digits p) d) as [L|G]; [exact L|].
  assert (0 <= d).
  { destruct (Z.lt_ge_cases d 0) as [N|P]; [|exact P].
    rewrite Z.pow_neg_r in H by lia. lia. }
  assert (2 ^ d <= 2 ^ (digits p - 1)) by (apply Z.pow_le_mono_r; lia). lia.
Qed.

(** [binary_normalize] of a non-zero integer, read on scaled values:
    exact when the integer has at most 53 bits, and never below half
    of the exact value. *)
Lemma normalize_scaled (n e : Z) :
  n <> 0 -> -256 <= e ->
  -256 <= e + (digits (Z.to_pos (Z.abs n)) - 53) ->
  e + (digits (Z.to_pos (Z.abs n)) - 53) < 971 ->
  let R := binary_normalize 53 1024 n e false in
  regular R /\
  (Z.abs n < 2 ^ 53 -> scaled R = n * 2 ^ (e + 256)) /\
  Z.abs n * 2 ^ (e + 256) <= 2 * Z.abs (scaled R) /\
  exists m2 e2, R = S754_finite (n <? 0) m2 e2 /\
    e + (digits (Z.to_pos (Z.abs n)) - 53) <= e2
    <= e + (digits (Z.to_pos (Z.abs n)) - 53) + 1.
Proof.
  intros Hn He Hlo Hhi. cbv zeta.
  set (p := Z.to_pos (Z.abs n)) in *. set (d := digits p) in *.
  assert (Hp : Zpos p = Z.abs n) by (unfold p; rewrite Z2Pos.id; lia).
  assert (HR : binary_normalize 53 1024 n e false
               = binary_round 53 1024 (n <? 0) p e).
  { destruct n as [|q|q]; [lia| |]; reflexivity. }
  rewrite HR.
  destruct (binary_round_spec (n <? 0) p e ltac:(fold d; lia) Hhi)
    as (m' & Hm & -> & Hs & Hl).
  fold d in Hs, Hl |- *.
  destruct (pack_spec (n <? 0) m' (e + (d - 53)) Hm ltac:(lia)) as [Rg Sc].
  pose proof (digits_pos p) as Dp. fold d in Dp.
  pose proof (digits_bounds p) as [Bl Bu]. fold d in Bl, Bu.
  assert (P0 : 0 < 2 ^ (e + 256)) by (apply pow2_pos; lia).
  split; [exact Rg|].
  assert (Hex : exists m2 e2,
             pack (n <? 0) m' (e + (d - 53)) = S754_finite (n <? 0) m2 e2 /\
             e + (d - 53) <= e2 <= e + (d - 53) + 1).
  { unfold pack. destruct (m' <? 2 ^ 53); eexists; eexists;
      (split; [reflexivity | lia]). }
  cut ((Z.abs n < 2 ^ 53 ->
        scaled (pack (n <? 0) m' (e + (d - 53))) = n * 2 ^ (e + 256)) /\
       Z.abs n * 2 ^ (e + 256)
       <= 2 * Z.abs (scaled (pack (n <? 0) m' (e + (d - 53))))).
  { intros [C1 C2]. auto. }
  clear Hex. rewrite Sc.
  assert (Habs : forall v, 0 <= v -> Z.abs (cond_Zopp (n <? 0) v) = v).
  { intros v Hv. destruct (n <? 0); simpl; lia. }
  rewrite Habs by (apply Z.mul_nonneg_nonneg; [lia | apply Z.lt_le_incl, pow2_pos; lia]).
  destruct (Z.le_gt_cases d 53) as [Le|Gt].
  - (* at most 53 bits: exact *)
    rewrite (Hs Le), Hp.
    assert (E : 2 ^ (53 - d) * 2 ^ (e + (d - 53) + 256) = 2 ^ (e + 256))
      by (rewrite <- pow2_split by lia; f_equal; lia).
    rewrite <- !Z.mul_assoc, E. split; [|lia].
    intros _. destruct (Z.ltb_spec n 0); simpl; lia.
  - (* more than 53 bits: rounded *)
    split.
    { intros Hlt. exfalso. rewrite <- Hp in Hlt.
      pose proof (digits_le p 53 Hlt). fold d in H. lia. }
    assert (Hl' := Hl ltac:(lia)).
    assert (E : 2 ^ (e + (d - 53) + 256) = 2 ^ (d - 53) * 2 ^ (e + 256))
      by (rewrite <- pow2_split by lia; f_equal; lia).
    assert (Hk : 2 ^ (d - 53) <= 2 ^ (d - 1)) by (apply Z.pow_le_mono_r; lia).
    rewrite E, <- Hp. 
    assert (Zpos p <= 2 * (m' * 2 ^ (d - 53))) by lia.
    rewrite Z.mul_assoc. nia.
Qed.

Lemma shl_align_value (m : positive) (e ez : Z) :
  ez <= e -> Zpos (fst (shl_align m e ez)) = Zpos m * 2 ^ (e - ez).
Proof.
  intros H. unfold shl_align. destruct (ez - e) as [|k|k] eqn:E; cbn [fst].
  - replace (e - ez) with 0 by lia. simpl. lia.
  - lia.
  - rewrite iter_xO. f_equal. f_equal. lia.
Qed.

Lemma cond_Zopp_mul (s : bool) (a b : Z) :
  cond_Zopp s a * b = cond_Zopp s (a * b).
Proof. destruct s; simpl; lia. Qed.

Lemma abs_cond_Zopp (s : bool) (v : Z) : 0 <= v -> Z.abs (cond_Zopp s v) = v.
Proof. intros H. destruct s; cbn [cond_Zopp]; lia. Qed.

Lemma moderate_regular (x : spec_float) : moderate x -> regular x.
Proof. destruct x; simpl; try tauto. intros [? ?]. split; [assumption | lia]. Qed.

Lemma moderate_scaled_bounds (s : bool) (m : positive) (e : Z) :
  moderate (S754_finite s m e) ->
  2 ^ 52 * 2 ^ (e + 256) <= Zpos m * 2 ^ (e + 256) < 2 ^ 53 * 2 ^ (e + 256).
Proof.
  intros [Hd He]. pose proof (digits_bounds m) as B. rewrite Hd in B.
  change (53 - 1) with 52 in B.
  assert (0 < 2 ^ (e + 256)) by (apply pow2_pos; lia). nia.
Qed.

(** Subtraction read on scaled values: the result is never below half of
    the exact difference, and is the exact difference when that one is
    no larger than either operand. *)
Lemma sub_scaled (x y : spec_float) :
  moderate x -> moderate y ->
  let R := Float64.sub x y in
  let delta := scaled x - scaled y in
  regular R /\
  Z.abs delta <= 2 * Z.abs (scaled R) /\
  (Z.abs delta <= Z.abs (scaled x) -> Z.abs delta <= Z.abs (scaled y) ->
   scaled R = delta).
Proof.
  destruct x as [| | |sx mx ex]; try contradiction.
  destruct y as [| | |sy my ey]; try contradiction.
  intros Mx My. cbv zeta.
  pose proof (moderate_scaled_bounds _ _ _ Mx) as Bx.
  pose proof (moderate_scaled_bounds _ _ _ My) as By.
  destruct Mx as [Dx Ex], My as [Dy Ey].
  unfold Float64.sub, SFsub.
  set (ez := Z.min ex ey).
  rewrite !shl_align_value by (unfold ez; lia).
  set (n := cond_Zopp sx (Zpos mx * 2 ^ (ex - ez))
            - cond_Zopp sy (Zpos my * 2 ^ (ey - ez))).
  assert (Pz : 0 < 2 ^ (ez + 256)) by (apply pow2_pos; unfold ez; lia).
  assert (Px : 2 ^ (ex - ez) * 2 ^ (ez + 256) = 2 ^ (ex + 256))
    by (rewrite <- pow2_split by (unfold ez; lia); f_equal; lia).
  assert (Py : 2 ^ (ey - ez) * 2 ^ (ez + 256) = 2 ^ (ey + 256))
    by (rewrite <- pow2_split by (unfold ez; lia); f_equal; lia).
  assert (Hn : n * 2 ^ (ez + 256)
               = scaled (S754_finite sx mx ex) - scaled (S754_finite sy my ey)).
  { unfold n. cbn [scaled]. rewrite Z.mul_sub_distr_r, !cond_Zopp_mul.
    now rewrite <- !Z.mul_assoc, Px, Py. }
  rewrite <- Hn.
  destruct (Z.eq_dec n 0) as [Z0|NZ].
  - rewrite Z0. cbn [binary_normalize regular scaled]. repeat split; lia.
  - set (M := Z.max ex ey).
    assert (Hd : digits (Z.to_pos (Z.abs n)) <= 54 + (M - ez)).
    { apply digits_le. rewrite Z2Pos.id by lia.
      pose proof (digits_bounds mx) as Ax. pose proof (digits_bounds my) as Ay.
      rewrite Dx in Ax. rewrite Dy in Ay.
      assert (0 < 2 ^ (ex - ez)) by (apply pow2_pos; unfold ez; lia).
      assert (0 < 2 ^ (ey - ez)) by (apply pow2_pos; unfold ez; lia).
      assert (2 ^ (ex - ez) <= 2 ^ (M - ez))
        by (apply Z.pow_le_mono_r; unfold M, ez; lia).
      assert (2 ^ (ey - ez) <= 2 ^ (M - ez))
        by (apply Z.pow_le_mono_r; unfold M, ez; lia).
      replace (54 + (M - ez)) with (1 + 53 + (M - ez)) by lia.
      rewrite !pow2_split by (unfold M, ez; lia). change (2 ^ 1) with 2.
      assert (Z.abs n <= Zpos mx * 2 ^ (ex - ez) + Zpos my * 2 ^ (ey - ez)).
      { unfold n. destruct sx, sy; cbn [cond_Zopp]; lia. }
      assert (Zpos mx * 2 ^ (ex - ez) < 2 ^ 53 * 2 ^ (M - ez)).
      { apply Z.le_lt_trans with (Zpos mx * 2 ^ (M - ez));
          [apply Z.mul_le_mono_nonneg_l | apply Z.mul_lt_mono_pos_r]; lia. }
      assert (Zpos my * 2 ^ (ey - ez) < 2 ^ 53 * 2 ^ (M - ez)).
      { apply Z.le_lt_trans with (Zpos my * 2 ^ (M - ez));
          [apply Z.mul_le_mono_nonneg_l | apply Z.mul_lt_mono_pos_r]; lia. }
      lia. }
    pose proof (digits_pos (Z.to_pos (Z.abs n))) as Dp.
    destruct (normalize_scaled n ez NZ) as (Rg & Hex & Hco & _);
      [unfold ez; lia | unfold ez; lia | unfold M, ez in *; lia |].
    split; [exact Rg|]. split.
    + rewrite Z.abs_mul, (Z.abs_eq (2 ^ (ez + 256))) by lia. exact Hco.
    + intros Hx Hy. apply Hex.
      rewrite Z.abs_mul, (Z.abs_eq (2 ^ (ez + 256))) in Hx, Hy by lia.
      cbn [scaled] in Hx, Hy.
      rewrite abs_cond_Zopp in Hx, Hy by lia.
      destruct Bx as [_ Bx], By as [_ By].
      apply (Z.mul_lt_mono_pos_r (2 ^ (ez + 256))); [exact Pz|].
      destruct (Z.le_ge_cases ex ey).
      * replace ez with ex in * by (unfold ez; lia). lia.
      * replace ez with ey in * by (unfold ez; lia). lia.
Qed.

Lemma Abs_scaled (x : spec_float) :
  scaled (Float64.Abs x) = Z.abs (scaled x) /\
  (regular x -> regular (Float64.Abs x)).
Proof.
  destruct x as [| | |s m e]; cbn; auto.
  split; [|auto]. 
  assert (0 <= Zpos m * 2 ^ (e + 256)).
  { apply Z.mul_nonneg_nonneg; [lia | apply Z.pow_nonneg; lia]. }
  destruct s; simpl; lia.
Qed.

(** The comparison with a positive float, read on scaled values. *)
Lemma ltb_Abs_scaled (x : spec_float) (mt : positive) (et : Z) :
  regular x -> digits mt = 53 -> -256 <= et ->
  Float64.ltb (Float64.Abs x) (S754_finite false mt et) = true <->
  Z.abs (scaled x) < Zpos mt * 2 ^ (et + 256).
Proof.
  intros Rx Dt Et.
  assert (Pt : 0 < 2 ^ (et + 256)) by (apply pow2_pos; lia).
  destruct x as [s| | |s m e]; try contradiction.
  - cbn. split; [intros _; lia | reflexivity].
  - destruct Rx as [Dm Em].
    pose proof (digits_bounds m) as Bm. rewrite Dm in Bm.
    pose proof (digits_bounds mt) as Bt. rewrite Dt in Bt.
    change (53 - 1) with 52 in *.
    assert (P : 0 < 2 ^ (e + 256)) by (apply pow2_pos; lia).
    replace (Z.abs (scaled (S754_finite s m e))) with (Zpos m * 2 ^ (e + 256))
      by (cbn [scaled]; destruct s; simpl; lia).
    unfold Float64.ltb, Float64.Abs, SFltb, SFabs, SFcompare.
    destruct (Z.compare_spec e et) as [E|L|G].
    + subst et. rewrite Pos.compare_cont_spec. cbn [Pos.switch_Eq].
      destruct (Pos.compare_spec m mt) as [E|L|G]; split; intros H;
        try discriminate; try reflexivity; subst; nia.
    + split; [intros _|reflexivity].
      assert (2 ^ (e + 1 + 256) <= 2 ^ (et + 256))
        by (apply Z.pow_le_mono_r; lia).
      replace (e + 1 + 256) with (1 + (e + 256)) in H by lia.
      rewrite pow2_split in H by lia. change (2 ^ 1) with 2 in H. nia.
    + split; [discriminate|]. intros H. exfalso.
      assert (2 ^ (et + 1 + 256) <= 2 ^ (e + 256))
        by (apply Z.pow_le_mono_r; lia).
      replace (et + 1 + 256) with (1 + (et + 256)) in H0 by lia.
      rewrite pow2_split in H0 by lia. change (2 ^ 1) with 2 in H0. nia.
Qed.

(** [float64(n)] is exact for a non-zero [n] of at most 53 bits. *)
Lemma ofInt_scaled (n : Z) :
  n <> 0 -> Z.abs n < 2 ^ 53 ->
  moderate (Float64.ofInt n) /\
  scaled (Float64.ofInt n) = n * 2 ^ 256 /\
  exists m e, Float64.ofInt n = S754_finite (n <? 0) m e /\ -52 <= e <= 1.
Proof.
  intros Hn Hb. unfold Float64.ofInt, Float64.prec, Float64.emax.
  pose proof (digits_pos (Z.to_pos (Z.abs n))) as Dp.
  assert (Dl : digits (Z.to_pos (Z.abs n)) <= 53).
  { apply digits_le. rewrite Z2Pos.id by lia. exact Hb. }
  destruct (normalize_scaled n 0 Hn) as (Rg & Hex & _ & m2 & e2 & HR & He2);
    try lia.
  rewrite HR in *. split; [|split].
  - destruct Rg as [Dm _]. split; [exact Dm | lia].
  - rewrite (Hex Hb). reflexivity.
  - exists m2, e2. split; [reflexivity | lia].
Qed.

Lemma new_location_spec (D r : Z) :
  0 < D -> 0 <= r < D ->
  new_location D r
  = if Z.eqb r 0 then loc_Exact else loc_Inexact (Z.compare (2 * r) D).
Proof.
  intros HD Hr. unfold new_location, new_location_even, new_location_odd.
  destruct r as [|p|p]; [now destruct (Z.even D)| |lia].
  cbn [Z.eqb]. change (Z.eqb (Zpos p) 0) with false. cbv iota.
  destruct (Z.even D) eqn:Ev; [reflexivity|].
  f_equal.
  assert (Od : Z.odd D = true) by (rewrite <- Z.negb_even, Ev; reflexivity).
  apply Z.odd_spec in Od. destruct Od as [c Hc].
  change (Z.add (Z.mul 2 (Zpos p)) 1) with (2 * Zpos p + 1).
  destruct (Z.compare_spec (2 * Zpos p + 1) D),
           (Z.compare_spec (2 * Zpos p) D); try reflexivity; lia.
Qed.

(** Division of two moderate floats: the quotient's mantissa is the
    nearest to the exact quotient in the binade of the exact quotient. *)
Lemma div_scaled (sx sy : bool) (a b : positive) (ea eb : Z) :
  digits a = 53 -> digits b = 53 ->
  -60 <= ea <= 60 -> -60 <= eb <= 60 ->
  exists m' E,
    2 ^ 52 <= m' <= 2 ^ 53 /\ -190 <= E < 900 /\
    Float64.div (S754_finite sx a ea) (S754_finite sy b eb)
    = pack (xorb sx sy) m' E /\
    let U := 2 ^ (E + 256) in
    let vx := Zpos a * 2 ^ (ea + 256) in
    let vy := Zpos b * 2 ^ (eb + 256) in
    2 ^ 52 * U * vy <= vx * 2 ^ 256 < 2 ^ 53 * U * vy /\
    2 * Z.abs (m' * U * vy - vx * 2 ^ 256) <= U * vy.
Proof.
  intros Da Db Ea Eb.
  pose proof (digits_bounds a) as Ba. rewrite Da in Ba.
  pose proof (digits_bounds b) as Bb. rewrite Db in Bb.
  change (53 - 1) with 52 in *.
  unfold Float64.div, Float64.prec, Float64.emax, SFdiv, SFdiv_core_binary.
  change (Zdigits2 (Zpos a)) with (digits a).
  change (Zdigits2 (Zpos b)) with (digits b).
  rewrite Da, Db, fexp_regular by lia.
  replace (Z.min (53 + ea - (53 + eb) - 53) (ea - eb))
    with (ea - eb - 53) by lia.
  replace (ea - eb - (ea - eb - 53)) with 53 by lia.
  rewrite Z.shiftl_mul_pow2 by lia.
  set (N := Zpos a * 2 ^ 53).
  pose proof (Z_div_mod N (Zpos b) ltac:(lia)) as Hdm.
  destruct (Z.div_eucl N (Zpos b)) as [q r]. destruct Hdm as [HN Hr].
  assert (Hq : 2 ^ 52 <= q < 2 ^ 54) by (unfold N in HN; nia).
  destruct q as [|qp|qp]; try lia.
  assert (Hloc : located N (Zpos b) (Zpos qp) (new_location (Zpos b) r)).
  { rewrite new_location_spec by lia. unfold located.
    destruct (Z.eqb_spec r 0); split; try lia.
    split; [lia|]. f_equal. lia. }
  assert (Dq : digits qp = 53 \/ digits qp = 54).
  { destruct (Z.lt_ge_cases (Zpos qp) (2 ^ 53)).
    - left. apply digits_unique. change (53 - 1) with 52. lia.
    - right. apply digits_unique. change (54 - 1) with 53. lia. }
  pose proof (digits_bounds qp) as Bq.
  destruct (round_aux_spec (xorb sx sy) qp (ea - eb - 53)
              (new_location (Zpos b) r) N (Zpos b))
    as (m' & Hm & Hn & HR); try lia; [exact Hloc|].
  set (k := digits qp - 53) in *.
  exists m', (ea - eb - 53 + k). split; [exact Hm|].
  split; [unfold k; lia|]. split; [exact HR|].
  cbv zeta.
  assert (Hk : 0 <= k <= 1) by (unfold k; lia).
  set (T := 2 ^ (ea + 459)).
  assert (PT : 0 < T) by (apply pow2_pos; lia).
  assert (E1 : 2 ^ (ea - eb - 53 + k + 256) * 2 ^ (eb + 256) = 2 ^ k * T).
  { unfold T. rewrite <- !pow2_split by lia. f_equal. lia. }
  assert (E2 : 2 ^ (ea + 256) * 2 ^ 256 = 2 ^ 53 * T).
  { unfold T. rewrite <- !pow2_split by lia. f_equal. lia. }
  assert (Pk : 0 < 2 ^ k) by (apply pow2_pos; lia).
  assert (A1 : forall c, c * 2 ^ (ea - eb - 53 + k + 256)
                         * (Zpos b * 2 ^ (eb + 256))
                         = c * (2 ^ k * Zpos b) * T).
  { intros c.
    replace (c * 2 ^ (ea - eb - 53 + k + 256) * (Zpos b * 2 ^ (eb + 256)))
      with (c * Zpos b
            * (2 ^ (ea - eb - 53 + k + 256) * 2 ^ (eb + 256))) by ring.
    rewrite E1. ring. }
  assert (A2 : Zpos a * 2 ^ (ea + 256) * 2 ^ 256 = N * T).
  { unfold N. rewrite <- Z.mul_assoc, E2. ring. }
  rewrite !A1, A2.
  replace (2 ^ (ea - eb - 53 + k + 256) * (Zpos b * 2 ^ (eb + 256)))
    with (2 ^ k * Zpos b * T)
    by (rewrite <- (Z.mul_1_l (2 ^ (ea - eb - 53 + k + 256))), A1; ring).
  assert (Bq' : 2 ^ 52 * 2 ^ k <= Zpos qp < 2 ^ 53 * 2 ^ k).
  { replace (digits qp) with (53 + k) in Bq by (unfold k; lia).
    replace (53 + k - 1) with (52 + k) in Bq by lia.
    rewrite !pow2_split in Bq by lia. exact Bq. }
  split.
  - assert (Q1 : 2 ^ 52 * 2 ^ k * Zpos b <= Zpos qp * Zpos b)
      by (apply Z.mul_le_mono_nonneg_r; lia).
    assert (Q2 : (Zpos qp + 1) * Zpos b <= 2 ^ 53 * 2 ^ k * Zpos b)
      by (apply Z.mul_le_mono_nonneg_r; lia).
    split; [apply Z.mul_le_mono_nonneg_r | apply Z.mul_lt_mono_pos_r]; lia.
  - rewrite <- Z.mul_sub_distr_r, Z.abs_mul, (Z.abs_eq T) by lia.
    rewrite Z.mul_assoc.
    apply Z.mul_le_mono_nonneg_r; [lia|]. exact Hn.
Qed.

End Float64Operations.

(** ** The tolerance tests of the classifier *)

Section ToleranceTests.

Import Float64Value.
Local Open Scope Z_scope.

Lemma pack_moderate (s : bool) (m e : Z) :
  2 ^ 52 <= m <= 2 ^ 53 -> -190 <= e < 900 -> moderate (pack s m e).
Proof.
  intros Hm He. destruct (pack_spec s m e Hm ltac:(lia)) as [Rg _].
  unfold pack in *. destruct (m <? 2 ^ 53); destruct Rg as [D _];
    (split; [exact D | lia]).
Qed.

(** [|x - c| < t] on floats is the same test on exact values, for a
    positive [c] at least four times the positive [t]. *)
Lemma tolerance_test (x : spec_float) (mc mt : positive) (ec et : Z) :
  moderate x ->
  moderate (S754_finite false mc ec) ->
  moderate (S754_finite false mt et) ->
  4 * (Zpos mt * 2 ^ (et + 256)) <= Zpos mc * 2 ^ (ec + 256) ->
  Float64.ltb (Float64.Abs (Float64.sub x (S754_finite false mc ec)))
              (S754_finite false mt et) = true <->
  Z.abs (scaled x - Zpos mc * 2 ^ (ec + 256)) < Zpos mt * 2 ^ (et + 256).
Proof.
  intros Mx Mc Mt H4.
  destruct (sub_scaled x _ Mx Mc) as (Rg & Hco & Hex).
  destruct Mt as [Dt Et].
  rewrite (ltb_Abs_scaled _ mt et Rg Dt) by lia.
  cbn [scaled cond_Zopp] in *.
  set (C := Zpos mc * 2 ^ (ec + 256)) in *.
  set (T := Zpos mt * 2 ^ (et + 256)) in *.
  assert (HT : 0 < T).
  { unfold T. apply Z.mul_pos_pos; [lia | apply pow2_pos; lia]. }
  split; intros H.
  - assert (E : scaled (Float64.sub x (S754_finite false mc ec)) = scaled x - C)
      by (apply Hex; lia).
    rewrite E in H. exact H.
  - rewrite Hex by lia. exact H.
Qed.

Lemma pow2_lt_inv (a b : Z) : 0 <= b -> 2 ^ a < 2 ^ b -> a < b.
Proof. intros Hb H. apply (Z.pow_lt_mono_r_iff 2); lia. Qed.

(** The exponent of a quotient follows from the binade of the ratio. *)
Lemma binade_of_ratio (W H j q : Z) :
  0 < W -> 0 < H -> 0 <= j -> 0 <= q ->
  2 ^ 52 * 2 ^ j * H <= W * 2 ^ 256 < 2 ^ 53 * 2 ^ j * H ->
  H <= W * 2 ^ q < 2 * H ->
  j = 204 - q.
Proof.
  intros HW HH Hj Hq [B1 B2] [R1 R2].
  assert (Pq : 0 < 2 ^ q) by (apply pow2_pos; lia).
  assert (Pj : 0 < 2 ^ j) by (apply pow2_pos; lia).
  assert (L1 : 2 ^ (52 + j + q) * H < 2 ^ 257 * H).
  { rewrite !pow2_split by lia. change (2 ^ 257) with (2 * 2 ^ 256).
    apply Z.le_lt_trans with (W * 2 ^ 256 * 2 ^ q); [nia|].
    replace (W * 2 ^ 256 * 2 ^ q) with (W * 2 ^ q * 2 ^ 256) by ring. nia. }
  assert (L2 : 2 ^ 256 * H < 2 ^ (53 + j + q) * H).
  { rewrite !pow2_split by lia.
    apply Z.le_lt_trans with (W * 2 ^ q * 2 ^ 256); [nia|].
    replace (W * 2 ^ q * 2 ^ 256) with (W * 2 ^ 256 * 2 ^ q) by ring. nia. }
  apply Z.mul_lt_mono_pos_r in L1, L2; try lia.
  apply pow2_lt_inv in L1, L2; lia.
Qed.

(** The exponent of a float follows from the binades of its value. *)
Lemma binade_of_value (m j g1 g2 : Z) :
  0 <= j -> 0 <= g1 -> 0 <= g2 -> 2 ^ 52 <= m <= 2 ^ 53 ->
  2 ^ 52 * 2 ^ g1 < m * 2 ^ j < 2 ^ 53 * 2 ^ g2 ->
  g1 <= j <= g2.
Proof.
  intros Hj Hg1 Hg2 Hm [B1 B2].
  assert (Pj : 0 < 2 ^ j) by (apply pow2_pos; lia).
  assert (P1 : 0 < 2 ^ g1) by (apply pow2_pos; lia).
  assert (P2 : 0 < 2 ^ g2) by (apply pow2_pos; lia).
  assert (L1 : 2 ^ (52 + j) < 2 ^ (53 + g2)) by (rewrite !pow2_split by lia; nia).
  assert (L2 : 2 ^ (52 + g1) < 2 ^ (53 + j)) by (rewrite !pow2_split by lia; nia).
  apply pow2_lt_inv in L1, L2; lia.
Qed.

(** The quotient of two converted integers: its mantissa [m'] is the
    integer nearest to the exact ratio scaled into its binade. *)
Lemma div_ofInt (w h : Z) :
  0 < Z.abs w < 2 ^ 31 -> 0 < Z.abs h < 2 ^ 31 ->
  exists m' j,
    0 <= j /\ 2 ^ 52 <= m' <= 2 ^ 53 /\
    2 ^ 52 * 2 ^ j * Z.abs h <= Z.abs w * 2 ^ 256 < 2 ^ 53 * 2 ^ j * Z.abs h /\
    2 * Z.abs (m' * 2 ^ j * Z.abs h - Z.abs w * 2 ^ 256) <= 2 ^ j * Z.abs h /\
    let r := Float64.div (Float64.ofInt w) (Float64.ofInt h) in
    moderate r /\
    scaled r = cond_Zopp (xorb (w <? 0) (h <? 0)) (m' * 2 ^ j).
Proof.
  intros Hw Hh.
  destruct (ofInt_scaled w) as (Mw & Sw & mw & ew & Ew & Rw); [lia | lia |].
  destruct (ofInt_scaled h) as (Mh & Sh & mh & eh & Eh & Rh); [lia | lia |].
  rewrite Ew, Eh in *. cbv zeta.
  destruct Mw as [Dw Xw], Mh as [Dh Xh].
  destruct (div_scaled (w <? 0) (h <? 0) mw mh ew eh Dw Dh)
    as (m' & E & Hm & HE & HR & HBN); try lia.
  cbv zeta in HBN. destruct HBN as [HB HN]. rewrite HR.
  destruct (pack_spec (xorb (w <? 0) (h <? 0)) m' E Hm ltac:(lia)) as [_ Sc].
  exists m', (E + 256). split; [lia|]. split; [exact Hm|].
  assert (Vw : Zpos mw * 2 ^ (ew + 256) = Z.abs w * 2 ^ 256).
  { cbn [scaled] in Sw. destruct (Z.ltb_spec w 0); simpl in Sw; lia. }
  assert (Vh : Zpos mh * 2 ^ (eh + 256) = Z.abs h * 2 ^ 256).
  { cbn [scaled] in Sh. destruct (Z.ltb_spec h 0); simpl in Sh; lia. }
  rewrite Vw, Vh in HB, HN.
  assert (P : 0 < 2 ^ 256) by (apply pow2_pos; lia).
  split; [|split; [|split; [now apply pack_moderate | exact Sc]]].
  - destruct HB as [B1 B2]. split.
    + apply (Z.mul_le_mono_pos_r _ _ (2 ^ 256) P).
      lia.
    + apply (Z.mul_lt_mono_pos_r (2 ^ 256) _ _ P). lia.
  - apply (Z.mul_le_mono_pos_r _ _ (2 ^ 256) P).
    rewrite <- (Z.abs_eq (2 ^ 256)) at 1 by lia.
    rewrite <- Z.mul_assoc, <- Z.abs_mul.
    replace ((m' * 2 ^ (E + 256) * Z.abs h - Z.abs w * 2 ^ 256) * 2 ^ 256)
      with (m' * 2 ^ (E + 256) * (Z.abs h * 2 ^ 256)
            - Z.abs w * 2 ^ 256 * 2 ^ 256) by ring.
    lia.
Qed.

(** *** The two bands, on the quotient's mantissa *)

Section Bands.

Variables W H m' j : Z.
Hypothesis HW : 0 < W < 2 ^ 31.
Hypothesis HH : 0 < H < 2 ^ 31.
Hypothesis Hj : 0 <= j.
Hypothesis Hm : 2 ^ 52 <= m' <= 2 ^ 53.
Hypothesis Hbinade :
  2 ^ 52 * 2 ^ j * H <= W * 2 ^ 256 < 2 ^ 53 * 2 ^ j * H.
Hypothesis Hnearest :
  2 * Z.abs (m' * 2 ^ j * H - W * 2 ^ 256) <= 2 ^ j * H.

Lemma band_16_9 :
  Z.abs (m' * 2 ^ j - 8006399337547548 * 2 ^ 204) < 7205759403792794 * 2 ^ 200
  <-> 151 * H <= 90 * W < 169 * H.
Proof.
  split.
  - intros HV.
    assert (Ej : 204 <= j <= 204) by (apply (binade_of_value m'); lia).
    assert (j = 204) by lia. subst j. clear Ej Hbinade. nia.
  - intros HB.
    assert (Ej : j = 204 - 0)
      by (apply (binade_of_ratio W H); try lia; change (2 ^ 0) with 1; lia).
    change (204 - 0) with 204 in Ej. subst j. clear Hbinade. nia.
Qed.

Lemma band_9_16 :
  Z.abs (m' * 2 ^ j - 5066549580791808 * 2 ^ 203) < 7205759403792794 * 2 ^ 200
  <-> 37 * H <= 80 * W <= 53 * H.
Proof.
  split.
  - intros HV.
    assert (Ej : 202 <= j <= 203) by (apply (binade_of_value m'); lia).
    assert (Cj : j = 202 \/ j = 203) by lia.
    destruct Cj; subst j; clear Ej; nia.
  - intros HB. destruct (Z.lt_ge_cases (2 * W) H) as [Lo|Hi].
    + assert (Ej : j = 204 - 2)
        by (apply (binade_of_ratio W H); try lia; change (2 ^ 2) with 4; lia).
      change (204 - 2) with 202 in Ej. subst j. clear Hbinade. nia.
    + assert (Ej : j = 204 - 1)
        by (apply (binade_of_ratio W H); try lia; change (2 ^ 1) with 2; lia).
      change (204 - 1) with 203 in Ej. subst j. clear Hbinade. nia.
Qed.

End Bands.

End ToleranceTests.

(** ** The classifier against the bands of the exact ratio *)

Section Classifier.

Import Float64Value.
Local Open Scope Z_scope.

Lemma const_16_9 :
  Float64.const 16 9 = S754_finite false 8006399337547548 (-52).
Proof. reflexivity. Qed.

Lemma const_9_16 :
  Float64.const 9 16 = S754_finite false 5066549580791808 (-53).
Proof. reflexivity. Qed.

Lemma const_1_10 :
  Float64.const 1 10 = S754_finite false 7205759403792794 (-56).
Proof. reflexivity. Qed.

(** Common frame sizes, and the three band ends that rounding lets in. *)
Example classify_common_sizes :
  classifyAspectRatio 1920 1080 = "16:9"%string /\
  classifyAspectRatio 1080 1920 = "9:16"%string /\
  classifyAspectRatio 640 480 = "other"%string /\
  classifyAspectRatio 151 90 = "16:9"%string /\
  classifyAspectRatio 37 80 = "9:16"%string /\
  classifyAspectRatio 53 80 = "9:16"%string.
Proof. repeat split; reflexivity. Qed.

(** The classifier on integer inequalities: with [W] and [H] the
    magnitudes of the dimensions, and dimensions of equal sign. *)
Lemma classifyAspectRatio_bands (w h : Z) :
  0 < Z.abs w < 2 ^ 31 -> 0 < Z.abs h < 2 ^ 31 ->
  classifyAspectRatio w h =
    if negb (xorb (w <? 0) (h <? 0))
       && (151 * Z.abs h <=? 90 * Z.abs w) && (90 * Z.abs w <? 169 * Z.abs h)
    then "16:9"%string
    else if negb (xorb (w <? 0) (h <? 0))
            && (37 * Z.abs h <=? 80 * Z.abs w) && (80 * Z.abs w <=? 53 * Z.abs h)
    then "9:16"%string
    else "other"%string.
Proof.
  intros Hw Hh. unfold classifyAspectRatio.
  rewrite const_16_9, const_9_16, const_1_10.
  destruct (div_ofInt w h Hw Hh) as (m' & j & Hj & Hm & Hb & Hn & Hr).
  cbv zeta in Hr. destruct Hr as [Mr Sr].
  set (r := Float64.div (Float64.ofInt w) (Float64.ofInt h)) in *.
  assert (Mt : moderate (S754_finite false 7205759403792794 (-56)))
    by (split; [reflexivity | lia]).
  assert (T1 := tolerance_test r 8006399337547548 7205759403792794 (-52) (-56)
                  Mr ltac:(split; [reflexivity | lia]) Mt ltac:(lia)).
  assert (T2 := tolerance_test r 5066549580791808 7205759403792794 (-53) (-56)
                  Mr ltac:(split; [reflexivity | lia]) Mt ltac:(lia)).
  change (-52 + 256) with 204 in T1. change (-53 + 256) with 203 in T2.
  change (-56 + 256) with 200 in T1, T2.
  rewrite Sr in T1, T2.
  assert (Pj : 0 < 2 ^ j) by (apply pow2_pos; lia).
  assert (PV : 0 < m' * 2 ^ j) by nia.
  destruct (xorb (w <? 0) (h <? 0)); cbn [negb andb cond_Zopp] in *.
  - (* dimensions of opposite signs: a negative ratio *)
    destruct (Float64.ltb _ _); [pose proof (proj1 T1 eq_refl); lia|].
    destruct (Float64.ltb _ _); [pose proof (proj1 T2 eq_refl); lia|].
    reflexivity.
  - pose proof (band_16_9 (Z.abs w) (Z.abs h) m' j Hw Hh Hj Hm Hb Hn) as B1.
    pose proof (band_9_16 (Z.abs w) (Z.abs h) m' j Hw Hh Hj Hm Hb Hn) as B2.
    destruct (Float64.ltb _ _).
    + pose proof (proj1 B1 (proj1 T1 eq_refl)) as E1.
      destruct (Z.leb_spec (151 * Z.abs h) (90 * Z.abs w)); [|lia].
      destruct (Z.ltb_spec (90 * Z.abs w) (169 * Z.abs h)); [reflexivity|lia].
    + assert (N1 : ~ (151 * Z.abs h <= 90 * Z.abs w < 169 * Z.abs h)).
      { intros C. apply B1, T1 in C. discriminate. }
      destruct (Float64.ltb _ _).
      * pose proof (proj1 B2 (proj1 T2 eq_refl)) as E2.
        destruct (Z.leb_spec (151 * Z.abs h) (90 * Z.abs w));
          destruct (Z.ltb_spec (90 * Z.abs w) (169 * Z.abs h));
          destruct (Z.leb_spec (37 * Z.abs h) (80 * Z.abs w));
          destruct (Z.leb_spec (80 * Z.abs w) (53 * Z.abs h));
          try reflexivity; lia.
      * assert (N2 : ~ (37 * Z.abs h <= 80 * Z.abs w <= 53 * Z.abs h)).
        { intros C. apply B2, T2 in C. discriminate. }
        destruct (Z.leb_spec (151 * Z.abs h) (90 * Z.abs w));
          destruct (Z.ltb_spec (90 * Z.abs w) (169 * Z.abs h));
          destruct (Z.leb_spec (37 * Z.abs h) (80 * Z.abs w));
          destruct (Z.leb_spec (80 * Z.abs w) (53 * Z.abs h));
          try reflexivity; lia.
Qed.

Lemma Qle_bool_ratio (a : Z) (b : positive) (w h : Z) :
  h <> 0 ->
  Qle_bool (a # b) (inject_Z w / inject_Z h)
  = (a * Z.abs h <=? cond_Zopp (h <? 0) w * Zpos b) /\
  Qle_bool (inject_Z w / inject_Z h) (a # b)
  = (cond_Zopp (h <? 0) w * Zpos b <=? a * Z.abs h).
Proof.
  intros Hh. unfold Qle_bool, Qdiv, Qmult, Qinv, inject_Z.
  destruct h as [|p|p]; [contradiction| |]; cbn -[Z.mul Z.leb];
    split; f_equal; lia.
Qed.

Lemma classifyByBands_Z (w h : Z) :
  h <> 0 ->
  classifyByBands w h =
    if negb (xorb (w <? 0) (h <? 0))
       && (151 * Z.abs h <=? 90 * Z.abs w) && (90 * Z.abs w <? 169 * Z.abs h)
    then "16:9"%string
    else if negb (xorb (w <? 0) (h <? 0))
            && (37 * Z.abs h <=? 80 * Z.abs w) && (80 * Z.abs w <=? 53 * Z.abs h)
    then "9:16"%string
    else "other"%string.
Proof.
  intros Hh. unfold classifyByBands. cbv zeta.
  change ((16 # 9) - (1 # 10))%Q with (151 # 90)%Q.
  change ((16 # 9) + (1 # 10))%Q with (169 # 90)%Q.
  change ((9 # 16) - (1 # 10))%Q with (74 # 160)%Q.
  change ((9 # 16) + (1 # 10))%Q with (106 # 160)%Q.
  rewrite (proj1 (Qle_bool_ratio 151 90 w h Hh)),
          (proj1 (Qle_bool_ratio 169 90 w h Hh)),
          (proj1 (Qle_bool_ratio 74 160 w h Hh)),
          (proj2 (Qle_bool_ratio 106 160 w h Hh)).
  destruct (Z.ltb_spec w 0), (Z.ltb_spec h 0); cbn [xorb negb andb cond_Zopp];
    repeat match goal with
           | |- context [Z.leb ?a ?b] => destruct (Z.leb_spec a b)
           | |- context [Z.ltb ?a ?b] => destruct (Z.ltb_spec a b)
           end; cbn [andb negb]; try reflexivity; lia.
Qed.

(** C2, as stated, fails at the upper end of the 16:9 band: 169/90 is
    exactly 16/9 + 0.1, within the inclusive tolerance, and 169x90 is
    classified as other. *)
Lemma inclusive_tolerance_counterexample :
  (inject_Z 169 / inject_Z 90 == (16 # 9) + (1 # 10))%Q /\
  classifyAspectRatio 169 90 = "other"%string.
Proof. split; reflexivity. Qed.

(** C2, amended: for every width/height pair with both dimensions
    non-zero and of magnitude below 2^31, the classifier (float64
    arithmetic, strict tests) returns 16:9 when
    16/9 - 0.1 <= width/height < 16/9 + 0.1, otherwise 9:16 when
    9/16 - 0.1 <= width/height <= 9/16 + 0.1, and other otherwise. *)
Theorem classifyAspectRatio_by_bands (width height : Z) :
  0 < Z.abs width < 2 ^ 31 -> 0 < Z.abs height < 2 ^ 31 ->
  classifyAspectRatio width height = classifyByBands width height.
Proof.
  intros Hw Hh.
  rewrite classifyAspectRatio_bands, classifyByBands_Z by lia. reflexivity.
Qed.

Lemma classifyAspectRatio_by_bands_witness :
  classifyAspectRatio 151 90 = classifyByBands 151 90 /\
  classifyByBands 151 90 = "16:9"%string /\
  (inject_Z 151 / inject_Z 90 == (16 # 9) - (1 # 10))%Q.
Proof.
  split; [|split; reflexivity].
  apply classifyAspectRatio_by_bands; simpl; lia.
Defined.

End Classifier.

(** * Further properties of the code *)

(** ** Location decoding: what a decoded pair says about the Location *)

Section DecodedLocations.

Import LocationSpec.

Lemma Split_not_nil (s : string) (sep : ascii) : Split s sep <> [].
Proof. rewrite Split_cut. now destruct (cut sep s) as [[l r]|]. Qed.

Lemma cut_Some (c : ascii) (s l r : string) :
  cut c s = Some (l, r) -> s = l +:+ String c r /\ occurs c l = false.
Proof.
  revert l; induction s as [|a s IH]; simpl; intros l; [discriminate|].
  destruct (Ascii.eqb_spec a c) as [->|Hac].
  - intros [= <- <-]. now split.
  - destruct (cut c s) as [[l' r']|]; [|discriminate].
    intros [= <- <-]. destruct (IH l' eq_refl) as [-> Hl]. split; [reflexivity|].
    simpl. rewrite Hl. now apply Ascii.eqb_neq in Hac as ->.
Qed.

(** X1: the outcomes of the decoding block. A Location decodes to a
    bucket and a key, or it starts with https:// and fails with
    "invalid S3 URL format", or it does not and fails with "invalid
    video URL format" carrying the Location itself. The third error of
    the block, "invalid S3 domain format", is never returned:
    [strings.Split] gives at least one piece. *)
Theorem decodeVideoURL_outcomes (location : string) :
  (exists bucket key, decodeVideoURL location = inr (bucket, key)) \/
  (HasPrefix location "https://" = true /\
   decodeVideoURL location = inl InvalidS3URLFormat) \/
  (HasPrefix location "https://" = false /\
   decodeVideoURL location = inl (InvalidVideoURLFormat location)).
Proof.
  unfold decodeVideoURL.
  destruct (HasPrefix location "https://").
  - destruct (SplitN _ "/" 2) as [|host [|path [|]]]; auto.
    pose proof (Split_not_nil host ".") as N.
    destruct (Split host "."); [contradiction | eauto].
  - destruct (Split location ",") as [|b [|k [|]]]; eauto.
Qed.

(** X2: decoding is the inverse of the compact encoding. A Location
    without the https:// prefix that decodes to (bucket, key) is exactly
    "bucket,key", and neither component holds a comma; a Location
    without the prefix that fails carries itself in the error. *)
Theorem compact_decode_inverse (location : string) :
  HasPrefix location "https://" = false ->
  match decodeVideoURL location with
  | inr (bucket, key) =>
      location = compactLocation bucket key /\
      occurs "," bucket = false /\ occurs "," key = false
  | inl e => e = InvalidVideoURLFormat location
  end.
Proof.
  intros Hp. unfold decodeVideoURL. rewrite Hp, Split_cut.
  destruct (cut "," location) as [[b k]|] eqn:C; [|reflexivity].
  apply cut_Some in C as [-> Hb].
  destruct (Split k ",") as [|x [|y l]] eqn:E; try reflexivity.
  pose proof (Split_one_inv _ _ _ E) as Hk.
  rewrite (Split_one _ _ Hk) in E. injection E as <-.
  now repeat split.
Qed.

Lemma compact_decode_inverse_witness :
  "my-bucket,portrait/x.mp4" = compactLocation "my-bucket" "portrait/x.mp4" /\
  occurs "," "my-bucket" = false /\ occurs "," "portrait/x.mp4" = false.
Proof.
  exact (compact_decode_inverse "my-bucket,portrait/x.mp4" eq_refl).
Defined.

(** X3: what a URL-form Location that decodes looks like. It is
    "https://" followed by the bucket, the rest of the host, one '/' and
    the key; the bucket holds neither '.' nor '/', the rest of the host
    is empty or starts with '.', and the key is everything after the
    first '/', taken as it is. *)
Theorem url_decode_shape (location bucket key : string) :
  HasPrefix location "https://" = true ->
  decodeVideoURL location = inr (bucket, key) ->
  exists domain,
    location = "https://" +:+ bucket +:+ domain +:+ "/" +:+ key /\
    occurs "." bucket = false /\ occurs "/" bucket = false /\
    occurs "/" domain = false /\
    (domain = "" \/ HasPrefix domain "." = true).
Proof.
  intros Hp E.
  pose proof (decodeVideoURL_url _ Hp) as U. rewrite E in U. simpl in U.
  symmetry in U. unfold urlForm in U. rewrite stripScheme_HasPrefix, Hp in U.
  destruct (HasPrefix_inv _ _ Hp) as [rest ->].
  rewrite TrimPrefix_app in U.
  destruct (cut "/" rest) as [[host path]|] eqn:C; [|discriminate].
  injection U as <- <-. apply cut_Some in C as [-> Hh].
  unfold firstLabel. destruct (cut "." host) as [[label dom]|] eqn:D.
  - apply cut_Some in D as [-> Hl]. rewrite occurs_app in Hh.
    apply orb_false_elim in Hh as [Hl' Hd].
    exists (String "." dom). rewrite !string_app_assoc.
    repeat split; auto. right. simpl. now destruct dom.
  - apply cut_None in D. exists "". repeat split; auto.
Qed.

Lemma url_decode_shape_witness :
  exists domain,
    "https://b.s3.amazonaws.com/other/x,y/z.mp4"
    = "https://" +:+ "b" +:+ domain +:+ "/" +:+ "other/x,y/z.mp4" /\
    occurs "." "b" = false /\ occurs "/" "b" = false /\
    occurs "/" domain = false /\
    (domain = "" \/ HasPrefix domain "." = true).
Proof.
  exact (url_decode_shape "https://b.s3.amazonaws.com/other/x,y/z.mp4"
           "b" "other/x,y/z.mp4" eq_refl eq_refl).
Defined.

End DecodedLocations.

(** ** The video handler: outcomes and effects *)

Section VideoHandlerOutcomes.

(** X4: the video handler answers 200 with a record, or 400, 401 or 500
    with an error message, and nothing else. *)
Theorem upload_video_statuses (cfg : apiConfig) (env : Collaborators)
    (r : Request) (w : World) :
  let resp := fst (serve (handlerUploadVideo cfg env r) w) in
  (status resp = 200%Z /\ exists video, body resp = VideoBody video) \/
  ((status resp = 400%Z \/ status resp = 401%Z \/ status resp = 500%Z) /\
   exists msg, body resp = ErrorBody msg).
Proof.
  cbv zeta. handler_unfold. handler_cases; cbn [status body]; eauto 8.
Qed.

(** X5: a request answered 400 or 401 by the video handler has had no
    effect at all: no file created, no object stored, no record
    written. *)
Theorem upload_video_client_error_no_effect (cfg : apiConfig)
    (env : Collaborators) (r : Request) (w : World) :
  let out := serve (handlerUploadVideo cfg env r) w in
  status (fst out) = 400%Z \/ status (fst out) = 401%Z ->
  snd out = w.
Proof.
  cbv zeta. handler_unfold. handler_cases; cbn [status];
    intros [H|H]; try discriminate H; reflexivity.
Qed.

Lemma upload_video_client_error_no_effect_witness :
  snd (serve (handlerUploadVideo Samples.cfg Samples.env
                (Samples.request "v1" "bob" "video/mp4")) Samples.w)
  = Samples.w.
Proof.
  apply upload_video_client_error_no_effect. right. reflexivity.
Defined.

(** X6: the video handler has an effect only for the owner of the
    record. Whenever a request leaves any event behind, its record id
    parsed, its credential validated to the very user the looked-up
    record belongs to, and its video part was declared video/mp4. *)
Theorem upload_video_effects_need_owner (cfg : apiConfig)
    (env : Collaborators) (r : Request) (w : World) :
  let out := serve (handlerUploadVideo cfg env r) w in
  trace (snd out) <> trace w ->
  exists videoID token video file,
    uuid_Parse env (PathValue r "videoID") = Some videoID /\
    GetBearerToken env (Header r) = Some token /\
    ValidateJWT env token = Some (UserID video) /\
    GetVideo env w videoID = inr video /\
    FormFile r "video" = Some file /\
    ParseMediaType env (ContentType file) = Some "video/mp4".
Proof.
  cbv zeta. handler_unfold. handler_cases; intros Ht;
    try (exfalso; apply Ht; reflexivity).
  all: repeat match goal with
              | H : String.eqb _ _ = true |- _ => apply String.eqb_eq in H
              end; subst.
  all: exists u, s, v, f; auto 10.
Qed.

Lemma upload_video_effects_need_owner_witness :
  exists videoID token video file,
    uuid_Parse Samples.env "v1" = Some videoID /\
    GetBearerToken Samples.env (fun _ => "alice") = Some token /\
    ValidateJWT Samples.env token = Some (UserID video) /\
    GetVideo Samples.env Samples.w videoID = inr video /\
    Some (Samples.part "video/mp4") = Some file /\
    ParseMediaType Samples.env (ContentType file) = Some "video/mp4".
Proof.
  apply (upload_video_effects_need_owner Samples.cfg Samples.env
           (Samples.request "v1" "alice" "video/mp4") Samples.w).
  vm_compute. discriminate.
Defined.

End VideoHandlerOutcomes.

(** ** The video handler: what each late outcome leaves behind *)

Section VideoHandlerEffects.

Import LocationSpec.

(** X7: the effects of a successful upload, in full and in order: the
    temporary file is created, the optimizer writes its copy, the
    object is put under the bucket with content type video/mp4, the
    record looked up is handed to the metadata store with its video
    Location set to "<bucket>,<key>" and its other fields as they were,
    and then the deferred removals run, the optimized copy first.
    Nothing else is touched. *)
Theorem upload_video_success_effects (cfg : apiConfig)
    (env : Collaborators) (r : Request) (w : World) :
  let out := serve (handlerUploadVideo cfg env r) w in
  status (fst out) = 200%Z ->
  exists videoID video tempFile processed key,
    uuid_Parse env (PathValue r "videoID") = Some videoID /\
    GetVideo env w videoID = inr video /\
    CreateTemp env = Some tempFile /\
    processVideoForFastStart env tempFile = Some processed /\
    let stored :=
      {| ID := ID video; UserID := UserID video;
         VideoURL := Some (s3Bucket cfg +:+ "," +:+ key);
         ThumbnailURL := ThumbnailURL video |} in
    trace (snd out)
    = (trace w ++ [EvCreateTemp tempFile; EvFastStart tempFile processed;
                   EvPutObject (s3Bucket cfg) key; EvUpdateVideo stored;
                   EvRemove processed; EvRemove tempFile])%list /\
    files (snd out) = files w ∖ {[processed]} ∖ {[tempFile]} /\
    objects (snd out) = <[(s3Bucket cfg, key) := "video/mp4"]> (objects w) /\
    db (snd out) = <[ID video := stored]> (db w).
Proof.
  cbv zeta. handler_unfold. handler_cases; cbn [status]; try discriminate.
  intros _. exists u, v, s1, s3. eexists.
  do 4 (split; [assumption || reflexivity|]).
  split; [rewrite <- !app_assoc; reflexivity|].
  split; [set_solver|]. split; reflexivity.
Qed.

Lemma upload_video_success_effects_witness :
  let out := serve (handlerUploadVideo Samples.cfg Samples.env
                      (Samples.request "v1" "alice" "video/mp4")) Samples.w in
  let stored :=
    {| ID := "v1"; UserID := "alice";
       VideoURL := Some "my-bucket,landscape/abc.mp4";
       ThumbnailURL := None |} in
  trace (snd out)
  = [EvCreateTemp "/tmp/tubely-upload-1.mp4";
     EvFastStart "/tmp/tubely-upload-1.mp4"
                 "/tmp/tubely-upload-1.mp4.processing";
     EvPutObject "my-bucket" "landscape/abc.mp4"; EvUpdateVideo stored;
     EvRemove "/tmp/tubely-upload-1.mp4.processing";
     EvRemove "/tmp/tubely-upload-1.mp4"] /\
  db (snd out) = <["v1" := stored]> (db Samples.w).
Proof.
  cbv zeta.
  destruct (upload_video_success_effects Samples.cfg Samples.env
              (Samples.request "v1" "alice" "video/mp4") Samples.w eq_refl)
    as (videoID & video & tempFile & processed & key & Hid & Hget & Htmp
        & Hproc & Ht & _ & _ & Hdb).
  injection Hid as <-. injection Hget as <-. injection Htmp as <-.
  injection Hproc as <-.
  assert (K : key = "landscape/abc.mp4").
  { pose proof Ht as Ht'. vm_compute in Ht'. congruence. }
  subst key. split; [exact Ht | exact Hdb].
Defined.

(** X8: no rollback when the record update fails. A request answered
    "Couldn't update video" has put its object into the store and has
    left the metadata store as it was: the object stays, referenced by
    no record, while both local files are removed. *)
Theorem upload_video_update_failure_keeps_object (cfg : apiConfig)
    (env : Collaborators) (r : Request) (w : World) :
  let out := serve (handlerUploadVideo cfg env r) w in
  body (fst out) = ErrorBody "Couldn't update video" ->
  status (fst out) = 500%Z /\
  exists tempFile processed key,
    trace (snd out)
    = (trace w ++ [EvCreateTemp tempFile; EvFastStart tempFile processed;
                   EvPutObject (s3Bucket cfg) key;
                   EvRemove processed; EvRemove tempFile])%list /\
    objects (snd out) = <[(s3Bucket cfg, key) := "video/mp4"]> (objects w) /\
    db (snd out) = db w.
Proof.
  cbv zeta. handler_unfold. handler_cases; cbn [body status];
    try discriminate.
  intros _. split; [reflexivity|]. do 3 eexists.
  split; [rewrite <- !app_assoc; reflexivity|]. split; reflexivity.
Qed.

Lemma upload_video_update_failure_keeps_object_witness :
  let cfg := Samples.cfg in
  let w := Samples.w in
  let out := serve (handlerUploadVideo cfg
                      (withLateAnswers Samples.env None false (fun _ _ => None))
                      (Samples.request "v1" "alice" "video/mp4")) w in
  status (fst out) = 500%Z /\
  exists tempFile processed key,
    trace (snd out)
    = (trace w ++ [EvCreateTemp tempFile; EvFastStart tempFile processed;
                   EvPutObject (s3Bucket cfg) key;
                   EvRemove processed; EvRemove tempFile])%list /\
    objects (snd out) = <[(s3Bucket cfg, key) := "video/mp4"]> (objects w) /\
    db (snd out) = db w.
Proof.
  exact (upload_video_update_failure_keeps_object Samples.cfg
           (withLateAnswers Samples.env None false (fun _ _ => None))
           (Samples.request "v1" "alice" "video/mp4") Samples.w eq_refl).
Defined.

End VideoHandlerEffects.

(** ** The video handler: publish, then resolve *)

Section PublishThenResolve.

Import LocationSpec.

Lemma decodeVideoURL_compactLocation (bucket key : string) :
  HasPrefix bucket "https://" = false ->
  occurs "," bucket = false -> occurs "," key = false ->
  decodeVideoURL (compactLocation bucket key) = inr (bucket, key).
Proof.
  intros Hp Hb Hk.
  assert (P : HasPrefix (compactLocation bucket key) "https://" = false).
  { unfold compactLocation. change ("," +:+ key) with (String "," key).
    now rewrite HasPrefix_before. }
  pose proof (decodeVideoURL_compact _ P) as D.
  unfold compactForm, compactLocation in D.
  change ("," +:+ key) with (String "," key) in D.
  rewrite (cut_app _ _ _ Hb), Hk in D.
  destruct (decodeVideoURL _) as [e|bk]; simpl in D; congruence.
Qed.

(** X9: no rollback when signing fails. A request answered "Couldn't
    generate presigned URL" has already stored its object and updated
    the record with the compact Location; what failed is the decoding
    of that very Location or the presign request. *)
Theorem upload_video_sign_failure_after_commit (cfg : apiConfig)
    (env : Collaborators) (r : Request) (w : World) :
  let out := serve (handlerUploadVideo cfg env r) w in
  body (fst out) = ErrorBody "Couldn't generate presigned URL" ->
  status (fst out) = 500%Z /\
  exists video key,
    let stored := withVideoURL video (compactLocation (s3Bucket cfg) key) in
    In (EvPutObject (s3Bucket cfg) key) (trace (snd out)) /\
    In (EvUpdateVideo stored) (trace (snd out)) /\
    objects (snd out) = <[(s3Bucket cfg, key) := "video/mp4"]> (objects w) /\
    db (snd out) = <[ID video := stored]> (db w) /\
    match decodeVideoURL (compactLocation (s3Bucket cfg) key) with
    | inl _ => True
    | inr (bucket, key') => PresignGetObject env bucket key' = None
    end.
Proof.
  cbv zeta. handler_unfold. handler_cases; cbn [body status];
    try discriminate.
  intros _. split; [reflexivity|]. do 2 eexists.
  do 2 (split; [rewrite !in_app_iff; cbn [In]; tauto|]).
  do 2 (split; [reflexivity|]).
  match goal with H : dbVideoToSignedVideo _ _ = inl _ |- _ => revert H end.
  unfold dbVideoToSignedVideo, generatePresignedURL. cbn [VideoURL withVideoURL].
  destruct (decodeVideoURL _) as [e|[b k]]; [trivial|].
  destruct (PresignGetObject env b k); [discriminate | reflexivity].
Qed.

Lemma upload_video_sign_failure_after_commit_witness :
  let cfg := Samples.cfg in
  let env := withLateAnswers Samples.env None true (fun _ _ => None) in
  let w := Samples.w in
  let out := serve (handlerUploadVideo cfg env
                      (Samples.request "v1" "alice" "video/mp4")) w in
  status (fst out) = 500%Z /\
  exists video key,
    let stored := withVideoURL video (compactLocation (s3Bucket cfg) key) in
    In (EvPutObject (s3Bucket cfg) key) (trace (snd out)) /\
    In (EvUpdateVideo stored) (trace (snd out)) /\
    objects (snd out) = <[(s3Bucket cfg, key) := "video/mp4"]> (objects w) /\
    db (snd out) = <[ID video := stored]> (db w) /\
    match decodeVideoURL (compactLocation (s3Bucket cfg) key) with
    | inl _ => True
    | inr (bucket, key') => PresignGetObject env bucket key' = None
    end.
Proof.
  exact (upload_video_sign_failure_after_commit Samples.cfg
           (withLateAnswers Samples.env None true (fun _ _ => None))
           (Samples.request "v1" "alice" "video/mp4") Samples.w eq_refl).
Defined.

(** X10: publish and resolve agree. For a bucket name free of commas
    that does not start with https:// and a generated id free of '/'
    and commas, the record in the body of a 200 answer differs from the
    record looked up only in its Location, which is the URL presigned
    for the very bucket and key the object was stored under; the
    metadata store keeps the compact Location, not the presigned URL. *)
Theorem upload_video_signs_published_object (cfg : apiConfig)
    (env : Collaborators) (r : Request) (w : World) :
  let out := serve (handlerUploadVideo cfg env r) w in
  status (fst out) = 200%Z ->
  HasPrefix (s3Bucket cfg) "https://" = false ->
  occurs "," (s3Bucket cfg) = false ->
  occurs "/" (newAssetID env) = false ->
  occurs "," (newAssetID env) = false ->
  exists videoID video key presignedURL,
    uuid_Parse env (PathValue r "videoID") = Some videoID /\
    GetVideo env w videoID = inr video /\
    objects (snd out) !! (s3Bucket cfg, key) = Some "video/mp4" /\
    PresignGetObject env (s3Bucket cfg) key = Some presignedURL /\
    body (fst out) = VideoBody (withVideoURL video presignedURL) /\
    db (snd out) !! ID video
    = Some (withVideoURL video (compactLocation (s3Bucket cfg) key)).
Proof.
  cbv zeta. intros H200 Hp Hb Hid Hc. revert H200.
  handler_unfold. handler_cases; cbn [status body]; try discriminate.
  intros _.
  match goal with H : dbVideoToSignedVideo _ _ = inr _ |- _ => revert H end.
  unfold getAssetPath.
  rewrite Join_dir_file
    by (apply plainElem_directoryFor || now apply plainElem_mp4).
  unfold dbVideoToSignedVideo, generatePresignedURL.
  cbn [VideoURL withVideoURL ID UserID ThumbnailURL].
  rewrite decodeVideoURL_compactLocation; [|assumption..|].
  - destruct (PresignGetObject env _ _) as [url|] eqn:P; [|discriminate].
    intros [= <-]. exists u, v. do 2 eexists.
    split; [reflexivity|]. split; [assumption|].
    split; [apply lookup_insert_eq|]. split; [exact P|].
    split; [reflexivity|]. apply lookup_insert_eq.
  - rewrite !occurs_app, Hc. unfold directoryFor.
    destruct (String.eqb _ "16:9"); [reflexivity|].
    destruct (String.eqb _ "9:16"); reflexivity.
Qed.

Lemma upload_video_signs_published_object_witness :
  let cfg := Samples.cfg in
  let env := Samples.env in
  let w := Samples.w in
  let out := serve (handlerUploadVideo cfg env
                      (Samples.request "v1" "alice" "video/mp4")) w in
  exists videoID video key presignedURL,
    uuid_Parse env "v1" = Some videoID /\
    GetVideo env w videoID = inr video /\
    objects (snd out) !! (s3Bucket cfg, key) = Some "video/mp4" /\
    PresignGetObject env (s3Bucket cfg) key = Some presignedURL /\
    body (fst out) = VideoBody (withVideoURL video presignedURL) /\
    db (snd out) !! ID video
    = Some (withVideoURL video (compactLocation (s3Bucket cfg) key)).
Proof.
  exact (upload_video_signs_published_object Samples.cfg Samples.env
           (Samples.request "v1" "alice" "video/mp4") Samples.w
           eq_refl eq_refl eq_refl eq_refl eq_refl).
Defined.

End PublishThenResolve.

(** ** The video handler: the shapes its effects can take *)

Section VideoHandlerShapes.

(** X11: whatever the collaborators answer, the events of one video
    upload take one of six shapes: nothing; a temporary file created
    and removed; the same with the output of a failed optimizer run
    written in between, which is not removed; the same with the
    optimizer's copy returned and removed before the temporary file;
    the same with the object put after the copy was returned; the same
    with the record updated after the put. So the handler never puts an
    object the optimizer has not returned, never updates a record
    without having put the object, always removes the temporary file
    and each copy the optimizer returned, and never removes what a
    failed optimizer run has left. *)
Theorem upload_video_effect_shapes (cfg : apiConfig) (env : Collaborators)
    (r : Request) (w : World) :
  let out := serve (handlerUploadVideo cfg env r) w in
  exists evs, trace (snd out) = (trace w ++ evs)%list /\
    (evs = [] \/
     exists tempFile,
       evs = [EvCreateTemp tempFile; EvRemove tempFile] \/
       exists processed,
         (processVideoForFastStart env tempFile = None /\
          fastStartLeftover env tempFile = Some processed /\
          evs = [EvCreateTemp tempFile; EvFastStart tempFile processed;
                 EvRemove tempFile]) \/
         processVideoForFastStart env tempFile = Some processed /\
         (evs = [EvCreateTemp tempFile; EvFastStart tempFile processed;
                 EvRemove processed; EvRemove tempFile] \/
          exists key,
            evs = [EvCreateTemp tempFile; EvFastStart tempFile processed;
                   EvPutObject (s3Bucket cfg) key;
                   EvRemove processed; EvRemove tempFile] \/
            exists video,
              evs = [EvCreateTemp tempFile; EvFastStart tempFile processed;
                     EvPutObject (s3Bucket cfg) key; EvUpdateVideo video;
                     EvRemove processed; EvRemove tempFile])).
Proof.
  cbv zeta. handler_unfold. handler_cases.
  all: eexists; split; [first [ rewrite <- ?app_assoc; reflexivity
                              | symmetry; apply app_nil_r ] |].
  all: first [ left; reflexivity | right; eexists ].
  all: first [ left; reflexivity | right; eexists ].
  all: first [ left; refine (conj _ (conj _ eq_refl)); eassumption
             | right; split; [eassumption|] ].
  all: first [ left; reflexivity | right; eexists ].
  all: first [ left; reflexivity | right; eexists; reflexivity ].
Qed.

End VideoHandlerShapes.

(** ** The thumbnail handler *)

Section ThumbnailHandler.

Lemma contentTypeToExt_image (mediaType : string) :
  String.eqb mediaType "image/jpeg" || String.eqb mediaType "image/png" = true ->
  mediaType = "image/jpeg" /\ contentTypeToExt !! mediaType = Some ".jpg" \/
  mediaType = "image/png" /\ contentTypeToExt !! mediaType = Some ".png".
Proof.
  intros H. apply orb_prop in H as [H|H]; apply String.eqb_eq in H; subst;
    [left | right]; split; reflexivity.
Qed.

(** X12: the thumbnail handler answers 200 with a record, or 400, 401,
    404 or 500 with an error message; and its "Unsupported image type"
    exit is dead, since both media types that pass the file-type test
    have an extension in the table. *)
Theorem upload_thumbnail_statuses (cfg : apiConfig) (env : Collaborators)
    (r : Request) (w : World) :
  let resp := fst (serve (handlerUploadThumbnail cfg env r) w) in
  ((status resp = 200%Z /\ exists video, body resp = VideoBody video) \/
   ((status resp = 400%Z \/ status resp = 401%Z \/ status resp = 404%Z \/
     status resp = 500%Z) /\
    exists msg, body resp = ErrorBody msg)) /\
  body resp <> ErrorBody "Unsupported image type".
Proof.
  cbv zeta. handler_unfold. handler_cases; cbn [status body].
  all: split; [eauto 10|]; try discriminate.
  match goal with H : _ || _ = true |- _ =>
    apply contentTypeToExt_image in H as [[_ H]|[_ H]] end; congruence.
Qed.

(** X13: a request answered 400, 401 or 404 by the thumbnail handler
    has had no effect at all. *)
Theorem upload_thumbnail_client_error_no_effect (cfg : apiConfig)
    (env : Collaborators) (r : Request) (w : World) :
  let out := serve (handlerUploadThumbnail cfg env r) w in
  status (fst out) = 400%Z \/ status (fst out) = 401%Z \/
  status (fst out) = 404%Z ->
  snd out = w.
Proof.
  cbv zeta. handler_unfold. handler_cases; cbn [status];
    intros [H|[H|H]]; try discriminate H; reflexivity.
Qed.

Lemma upload_thumbnail_client_error_no_effect_witness :
  snd (serve (handlerUploadThumbnail Samples.cfg Samples.env
                (Samples.request "v2" "alice" "image/png")) Samples.w)
  = Samples.w.
Proof.
  apply upload_thumbnail_client_error_no_effect. right. right. reflexivity.
Defined.

(** X14: the effects of a successful thumbnail upload, in full: one
    file is created under the assets root, named by the random name
    followed by ".jpg" for image/jpeg and ".png" for image/png; the
    record looked up is handed to the metadata store with
    "http://localhost:<port>/assets/<name>" as its thumbnail Location
    and its other fields as they were; the answer carries that record
    as stored. The object store is not touched and no file is
    removed. *)
Theorem upload_thumbnail_success_effects (cfg : apiConfig)
    (env : Collaborators) (r : Request) (w : World) :
  let out := serve (handlerUploadThumbnail cfg env r) w in
  status (fst out) = 200%Z ->
  exists videoID video file mediaType ext base64Name,
    uuid_Parse env (PathValue r "videoID") = Some videoID /\
    GetVideo env w videoID = inr video /\
    FormFile r "thumbnail" = Some file /\
    ParseMediaType env (ContentType file) = Some mediaType /\
    (mediaType = "image/jpeg" /\ ext = ".jpg" \/
     mediaType = "image/png" /\ ext = ".png") /\
    rand_Read env = Some base64Name /\
    let filename := base64Name +:+ ext in
    let path := filepath.Join [assetsRoot cfg; filename] in
    let stored :=
      {| ID := ID video; UserID := UserID video;
         VideoURL := VideoURL video;
         ThumbnailURL :=
           Some ("http://localhost:" +:+ port cfg +:+ "/assets/"
                 +:+ filename) |} in
    trace (snd out) = (trace w ++ [EvCreate path; EvUpdateVideo stored])%list /\
    files (snd out) = {[path]} ∪ files w /\
    objects (snd out) = objects w /\
    db (snd out) = <[ID video := stored]> (db w) /\
    body (fst out) = VideoBody stored.
Proof.
  cbv zeta. handler_unfold. handler_cases; cbn [status body];
    try discriminate.
  intros _.
  match goal with H : _ || _ = true |- _ =>
    pose proof (contentTypeToExt_image _ H) as E end.
  exists u, v, f, s0, s1, s2.
  do 4 (split; [assumption || reflexivity|]).
  split; [destruct E as [[-> E]|[-> E]]; [left|right]; split; congruence|].
  split; [reflexivity|].
  split; [rewrite <- !app_assoc; reflexivity|].
  repeat split; reflexivity.
Qed.

Lemma upload_thumbnail_success_effects_witness :
  let out := serve (handlerUploadThumbnail Samples.cfg Samples.env
                      (Samples.request "v1" "alice" "image/png")) Samples.w in
  let stored :=
    {| ID := "v1"; UserID := "alice"; VideoURL := None;
       ThumbnailURL := Some "http://localhost:8091/assets/xyz.png" |} in
  trace (snd out) = [EvCreate "assets/xyz.png"; EvUpdateVideo stored] /\
  db (snd out) = <["v1" := stored]> (db Samples.w) /\
  body (fst out) = VideoBody stored.
Proof.
  cbv zeta.
  destruct (upload_thumbnail_success_effects Samples.cfg Samples.env
              (Samples.request "v1" "alice" "image/png") Samples.w eq_refl)
    as (videoID & video & file & mediaType & ext & name & Hid & Hget
        & Hfile & Hm & He & Hn & Ht & _ & _ & Hdb & Hbody).
  injection Hid as <-. injection Hget as <-. injection Hfile as <-.
  injection Hm as <-. injection Hn as <-.
  destruct He as [[He _]|[_ ->]]; [discriminate He|].
  split; [exact Ht|]. split; [exact Hdb | exact Hbody].
Defined.

(** X15: the thumbnail handler removes nothing. A request answered
    "Couldn't copy thumbnail file" or "Couldn't update video" has
    created its file and leaves it in place, with the metadata store as
    it was. *)
Theorem upload_thumbnail_failure_keeps_file (cfg : apiConfig)
    (env : Collaborators) (r : Request) (w : World) :
  let out := serve (handlerUploadThumbnail cfg env r) w in
  body (fst out) = ErrorBody "Couldn't copy thumbnail file" \/
  body (fst out) = ErrorBody "Couldn't update video" ->
  status (fst out) = 500%Z /\
  exists path,
    trace (snd out) = (trace w ++ [EvCreate path])%list /\
    path ∈ files (snd out) /\
    files (snd out) = {[path]} ∪ files w /\
    db (snd out) = db w.
Proof.
  cbv zeta. handler_unfold. handler_cases; cbn [status body];
    intros [H|H]; try discriminate H.
  all: split; [reflexivity|]; eexists.
  all: split; [reflexivity|]; split; [set_solver|]; split; reflexivity.
Qed.

Lemma upload_thumbnail_failure_keeps_file_witness :
  let w := Samples.w in
  let out := serve (handlerUploadThumbnail Samples.cfg
                      (withLateAnswers Samples.env (Some "xyz") false
                         (fun _ _ => None))
                      (Samples.request "v1" "alice" "image/png")) w in
  status (fst out) = 500%Z /\
  exists path,
    trace (snd out) = (trace w ++ [EvCreate path])%list /\
    path ∈ files (snd out) /\
    files (snd out) = {[path]} ∪ files w /\
    db (snd out) = db w.
Proof.
  apply (upload_thumbnail_failure_keeps_file Samples.cfg
           (withLateAnswers Samples.env (Some "xyz") false (fun _ _ => None))
           (Samples.request "v1" "alice" "image/png") Samples.w).
  right. reflexivity.
Defined.

(** X16: the thumbnail handler has an effect only for the owner of the
    record and only for an image: whenever a request leaves any event
    behind, its credential validated to the user the looked-up record
    belongs to and its thumbnail part was declared image/jpeg or
    image/png. *)
Theorem upload_thumbnail_effects_need_owner (cfg : apiConfig)
    (env : Collaborators) (r : Request) (w : World) :
  let out := serve (handlerUploadThumbnail cfg env r) w in
  trace (snd out) <> trace w ->
  exists videoID token video file mediaType,
    uuid_Parse env (PathValue r "videoID") = Some videoID /\
    GetBearerToken env (Header r) = Some token /\
    ValidateJWT env token = Some (UserID video) /\
    GetVideo env w videoID = inr video /\
    FormFile r "thumbnail" = Some file /\
    ParseMediaType env (ContentType file) = Some mediaType /\
    (mediaType = "image/jpeg" \/ mediaType = "image/png").
Proof.
  cbv zeta. handler_unfold. handler_cases; intros Ht;
    try (exfalso; apply Ht; reflexivity).
  all: match goal with H : _ || _ = true |- _ =>
         pose proof (contentTypeToExt_image _ H) as E end.
  all: repeat match goal with
              | H : String.eqb _ _ = true |- _ => apply String.eqb_eq in H
              end; subst.
  all: exists u, s, v, f, s0;
    repeat (split; [assumption || reflexivity|]); tauto.
Qed.

Lemma upload_thumbnail_effects_need_owner_witness :
  exists videoID token video file mediaType,
    uuid_Parse Samples.env "v1" = Some videoID /\
    GetBearerToken Samples.env (fun _ => "alice") = Some token /\
    ValidateJWT Samples.env token = Some (UserID video) /\
    GetVideo Samples.env Samples.w videoID = inr video /\
    Some (Samples.part "image/jpeg") = Some file /\
    ParseMediaType Samples.env (ContentType file) = Some mediaType /\
    (mediaType = "image/jpeg" \/ mediaType = "image/png").
Proof.
  apply (upload_thumbnail_effects_need_owner Samples.cfg Samples.env
           (Samples.request "v1" "alice" "image/jpeg") Samples.w).
  vm_compute. discriminate.
Defined.

(** X17: the thumbnail handler tests the media type before it looks the
    record up. A request with a well-formed id, a valid credential and
    a thumbnail part whose media type is neither image/jpeg nor
    image/png is answered 400 "Invalid file type" whatever the metadata
    store holds, also when the record does not exist. *)
Theorem upload_thumbnail_media_type_first (cfg : apiConfig)
    (env : Collaborators) (r : Request) (w : World)
    (videoID token userID : string) (file : FilePart) (mediaType : string) :
  uuid_Parse env (PathValue r "videoID") = Some videoID ->
  GetBearerToken env (Header r) = Some token ->
  ValidateJWT env token = Some userID ->
  FormFile r "thumbnail" = Some file ->
  ParseMediaType env (ContentType file) = Some mediaType ->
  mediaType <> "image/jpeg" -> mediaType <> "image/png" ->
  serve (handlerUploadThumbnail cfg env r) w
  = ({| status := 400; body := ErrorBody "Invalid file type" |}, w).
Proof.
  intros Hid Htok Hjwt Hfile Hm Hj Hp.
  apply String.eqb_neq in Hj, Hp.
  handler_unfold. now rewrite Hid, Htok, Hjwt, Hfile, Hm, Hj, Hp.
Qed.

Lemma upload_thumbnail_media_type_first_witness :
  serve (handlerUploadThumbnail Samples.cfg Samples.env
           (Samples.request "v2" "alice" "video/mp4")) Samples.w
  = ({| status := 400; body := ErrorBody "Invalid file type" |}, Samples.w).
Proof.
  apply (upload_thumbnail_media_type_first Samples.cfg Samples.env
           (Samples.request "v2" "alice" "video/mp4") Samples.w
           "v2" "alice" "alice" (Samples.part "video/mp4") "video/mp4");
    (reflexivity || discriminate).
Defined.

End ThumbnailHandler.

(** ** The classifier: streams, scale, rotation and sign *)

Section ClassifierUse.

Local Open Scope Z_scope.

(** X18: the first stream with both dimensions non-zero decides. Streams
    in front of it that lack a dimension (audio streams, say) are passed
    over, and the streams after it are not looked at. *)
Theorem first_valid_stream_decides (pre post : list Stream) (s : Stream) :
  (forall x, In x pre -> Width x = 0 \/ Height x = 0) ->
  Width s <> 0 -> Height s <> 0 ->
  getVideoAspectRatio (ProbeOutput (pre ++ s :: post))
  = inr (classifyAspectRatio (Width s) (Height s)).
Proof.
  intros Hpre Hw Hh. unfold getVideoAspectRatio.
  assert (L : (List.length (pre ++ s :: post) =? 0)%nat = false).
  { apply Nat.eqb_neq. rewrite List.length_app. simpl. lia. }
  rewrite L.
  assert (F : firstDimensions (pre ++ s :: post) = (Width s, Height s)).
  { clear L. induction pre as [|x pre IH]; simpl.
    - apply Z.eqb_neq in Hw, Hh. now rewrite Hw, Hh.
    - destruct (Hpre x (or_introl eq_refl)) as [E|E]; rewrite E; simpl;
        rewrite ?andb_false_r; apply IH; intros y Hy; apply Hpre; now right. }
  rewrite F. apply Z.eqb_neq in Hw, Hh. now rewrite Hw, Hh.
Qed.

Lemma first_valid_stream_decides_witness :
  getVideoAspectRatio
    (ProbeOutput ([ {| Width := 0; Height := 0 |} ]
                  ++ {| Width := 1080; Height := 1920 |}
                  :: [ {| Width := 1920; Height := 1080 |} ]))
  = inr (classifyAspectRatio 1080 1920).
Proof.
  apply (first_valid_stream_decides [ {| Width := 0; Height := 0 |} ]
           [ {| Width := 1920; Height := 1080 |} ]
           {| Width := 1080; Height := 1920 |}).
  - intros x [<-|[]]. now left.
  - discriminate.
  - discriminate.
Defined.

Lemma leb_scale (c a x b y : Z) :
  0 < c -> (a * (c * x) <=? b * (c * y)) = (a * x <=? b * y).
Proof.
  intros Hc. destruct (Z.leb_spec (a * x) (b * y));
    [apply Z.leb_le | apply Z.leb_gt]; nia.
Qed.

Lemma ltb_scale (c a x b y : Z) :
  0 < c -> (a * (c * x) <? b * (c * y)) = (a * x <? b * y).
Proof.
  intros Hc. destruct (Z.ltb_spec (a * x) (b * y));
    [apply Z.ltb_lt | apply Z.ltb_ge]; nia.
Qed.

Lemma ltb_0_mul (k x : Z) :
  k <> 0 -> x <> 0 -> (k * x <? 0) = xorb (k <? 0) (x <? 0).
Proof.
  intros Hk Hx.
  destruct (Z.ltb_spec k 0), (Z.ltb_spec x 0), (Z.ltb_spec (k * x) 0);
    try reflexivity; nia.
Qed.

(** X19: the classification depends on the ratio only, not on the
    resolution: scaling both dimensions by the same non-zero factor
    (a negative one included) leaves the result as it is, float64
    rounding notwithstanding. *)
Theorem classification_scale_invariant (w h k : Z) :
  k <> 0 -> w <> 0 -> h <> 0 ->
  Z.abs (k * w) < 2 ^ 31 -> Z.abs (k * h) < 2 ^ 31 ->
  classifyAspectRatio (k * w) (k * h) = classifyAspectRatio w h.
Proof.
  intros Hk Hw Hh Bw Bh.
  rewrite Z.abs_mul in Bw, Bh.
  rewrite (classifyAspectRatio_bands (k * w) (k * h)),
          (classifyAspectRatio_bands w h).
  - rewrite !Z.abs_mul, !ltb_0_mul by assumption.
    rewrite !leb_scale, !ltb_scale by lia.
    now destruct (k <? 0), (w <? 0), (h <? 0).
  - nia.
  - nia.
  - rewrite Z.abs_mul. nia.
  - rewrite Z.abs_mul. nia.
Qed.

Lemma classification_scale_invariant_witness :
  classifyAspectRatio (120 * 16) (120 * 9) = classifyAspectRatio 16 9 /\
  classifyAspectRatio (-1 * 16) (-1 * 9) = classifyAspectRatio 16 9.
Proof.
  split; apply classification_scale_invariant; simpl; lia.
Defined.

(** X20: exact ratios at every resolution: 16k x 9k is 16:9 and
    9k x 16k is 9:16, while 4:3, 1:1 and 5:3 frames are other;
    a 3:5 frame, the rotated 5:3 one, is 9:16. *)
Theorem exact_ratios_any_scale (k : Z) :
  0 < k -> 16 * k < 2 ^ 31 ->
  classifyAspectRatio (16 * k) (9 * k) = "16:9"%string /\
  classifyAspectRatio (9 * k) (16 * k) = "9:16"%string /\
  classifyAspectRatio (4 * k) (3 * k) = "other"%string /\
  classifyAspectRatio k k = "other"%string /\
  classifyAspectRatio (5 * k) (3 * k) = "other"%string /\
  classifyAspectRatio (3 * k) (5 * k) = "9:16"%string.
Proof.
  intros Hk Hb.
  repeat split; rewrite classifyAspectRatio_bands by lia;
    repeat match goal with
           | |- context [Z.leb ?a ?b] => destruct (Z.leb_spec a b)
           | |- context [Z.ltb ?a ?b] => destruct (Z.ltb_spec a b)
           end; cbn [xorb negb andb]; try reflexivity; lia.
Qed.

Lemma exact_ratios_any_scale_witness :
  classifyAspectRatio (16 * 240) (9 * 240) = "16:9"%string /\
  classifyAspectRatio (9 * 240) (16 * 240) = "9:16"%string /\
  classifyAspectRatio (4 * 240) (3 * 240) = "other"%string /\
  classifyAspectRatio 240 240 = "other"%string /\
  classifyAspectRatio (5 * 240) (3 * 240) = "other"%string /\
  classifyAspectRatio (3 * 240) (5 * 240) = "9:16"%string.
Proof. apply exact_ratios_any_scale; lia. Defined.

(** X21: a frame classified 16:9 is classified 9:16 once rotated (its
    dimensions swapped). *)
Theorem landscape_rotates_to_portrait (w h : Z) :
  0 < Z.abs w < 2 ^ 31 -> 0 < Z.abs h < 2 ^ 31 ->
  classifyAspectRatio w h = "16:9"%string ->
  classifyAspectRatio h w = "9:16"%string.
Proof.
  intros Hw Hh. rewrite !classifyAspectRatio_bands by assumption.
  rewrite (xorb_comm (h <? 0)).
  destruct (xorb (w <? 0) (h <? 0)); cbn [negb andb]; [discriminate|].
  repeat match goal with
         | |- context [Z.leb ?a ?b] => destruct (Z.leb_spec a b)
         | |- context [Z.ltb ?a ?b] => destruct (Z.ltb_spec a b)
         end; cbn [andb]; try reflexivity; try discriminate; lia.
Qed.

Lemma landscape_rotates_to_portrait_witness :
  classifyAspectRatio 1080 1920 = "9:16"%string.
Proof.
  apply (landscape_rotates_to_portrait 1920 1080);
    [simpl; lia | simpl; lia | reflexivity].
Defined.

(** X22: dimensions of opposite signs are never 16:9 or 9:16: the
    classification of a negative ratio is other. *)
Theorem negative_ratio_is_other (w h : Z) :
  0 < Z.abs w < 2 ^ 31 -> 0 < Z.abs h < 2 ^ 31 ->
  w * h < 0 ->
  classifyAspectRatio w h = "other"%string.
Proof.
  intros Hw Hh Hn. rewrite classifyAspectRatio_bands by assumption.
  assert (X : xorb (w <? 0) (h <? 0) = true).
  { destruct (Z.ltb_spec w 0), (Z.ltb_spec h 0); try reflexivity; nia. }
  now rewrite X.
Qed.

Lemma negative_ratio_is_other_witness :
  classifyAspectRatio (-1920) 1080 = "other"%string.
Proof. apply negative_ratio_is_other; simpl; lia. Defined.

End ClassifierUse.

(** ** The base64 encoding of random names *)

Section Base64Encoding.

Import LocationSpec.

(** The encoder on the test vectors of RFC 4648 ("f", "fo", "foo",
    "foobar"), padding left out, and on bytes that need the two
    URL-safe characters. *)
Example EncodeToString_samples :
  base64.EncodeToString [] = "" /\
  base64.EncodeToString [Byte.x66] = "Zg" /\
  base64.EncodeToString [Byte.x66; Byte.x6f] = "Zm8" /\
  base64.EncodeToString [Byte.x66; Byte.x6f; Byte.x6f] = "Zm9v" /\
  base64.EncodeToString
    [Byte.x66; Byte.x6f; Byte.x6f; Byte.x62; Byte.x61; Byte.x72] = "Zm9vYmFy" /\
  base64.EncodeToString [Byte.xfb; Byte.xff; Byte.xfe] = "-__-".
Proof. repeat split; reflexivity. Qed.

Lemma list_ind3 {A} (P : list A -> Prop) :
  P [] -> (forall a, P [a]) -> (forall a b, P [a; b]) ->
  (forall a b c l, P l -> P (a :: b :: c :: l)) ->
  forall l, P l.
Proof.
  intros H0 H1 H2 H3. fix IH 1.
  intros [|a [|b [|c l]]];
    [exact H0 | apply H1 | apply H2 | apply H3, IH].
Qed.

Lemma land_63 (x : N) : (N.land x 63 < 64)%N.
Proof.
  change 63%N with (N.ones 6). rewrite N.land_ones.
  now apply N.mod_lt.
Qed.

Lemma below_64 (P : N -> bool) :
  forallb P (map N.of_nat (seq 0 64)) = true ->
  forall i, (i < 64)%N -> P i = true.
Proof.
  intros H i Hi. rewrite forallb_forall in H. apply H.
  apply in_map_iff. exists (N.to_nat i). split; [apply N2Nat.id|].
  apply in_seq. lia.
Qed.

Lemma encode_within (i : N) :
  (i < 64)%N -> occurs (base64.encode i) base64.encodeURL = true.
Proof.
  revert i. apply (below_64 (fun i => occurs (base64.encode i) base64.encodeURL)).
  reflexivity.
Qed.

Lemma EncodeToString_within (src : list Byte.byte) :
  within base64.encodeURL (base64.EncodeToString src) = true.
Proof.
  induction src as [|a|a b|a b c l IH] using list_ind3;
    cbn [base64.EncodeToString within]; cbv zeta;
    rewrite ?encode_within by apply land_63; auto.
Qed.

Lemma EncodeToString_length (src : list Byte.byte) :
  String.length (base64.EncodeToString src)
  = (List.length src / 3 * 4 + (List.length src mod 3 * 8 + 5) / 6)%nat.
Proof.
  induction src as [|a|a b|a b c l IH] using list_ind3;
    try reflexivity.
  cbn [base64.EncodeToString String.length List.length]. cbv zeta.
  cbn [String.length]. rewrite IH.
  change (S (S (S (List.length l)))) with (1 * 3 + List.length l)%nat.
  rewrite Nat.div_add_l, Nat.Div0.add_mod by discriminate.
  rewrite Nat.Div0.mod_mul, Nat.add_0_l, Nat.Div0.mod_mod. lia.
Qed.

End Base64Encoding.

(** ** The base64 encoding is injective *)

Section Base64Injective.

Local Open Scope N_scope.

Lemma lor_shiftl_add (a b n : N) :
  b < 2 ^ n -> N.lor (N.shiftl a n) b = a * 2 ^ n + b.
Proof.
  intros Hb.
  assert (D : N.land (N.shiftl a n) b = 0).
  { apply N.bits_inj. intros m. rewrite N.land_spec, N.bits_0.
    destruct (N.lt_ge_cases m n) as [L|G].
    - now rewrite N.shiftl_spec_low.
    - rewrite <- (N.mod_small b (2 ^ n)) by assumption.
      rewrite N.mod_pow2_bits_high by assumption. apply andb_false_r. }
  rewrite <- N.lxor_lor, <- N.add_nocarry_lxor by assumption.
  now rewrite N.shiftl_mul_pow2.
Qed.

Lemma val_3 (a b c : N) :
  a <= 255 -> b <= 255 -> c <= 255 ->
  N.lor (N.lor (N.shiftl a 16) (N.shiftl b 8)) c = a * 65536 + b * 256 + c.
Proof.
  intros Ha Hb Hc.
  rewrite (N.shiftl_mul_pow2 b 8), (lor_shiftl_add a (b * 2 ^ 8) 16)
    by (change (2 ^ 8) with 256; change (2 ^ 16) with 65536; lia).
  change (2 ^ 16) with (2 ^ 8 * 2 ^ 8).
  rewrite N.mul_assoc, <- N.mul_add_distr_r, <- N.shiftl_mul_pow2.
  rewrite lor_shiftl_add by (change (2 ^ 8) with 256; lia).
  change (2 ^ 8) with 256. lia.
Qed.

Lemma val_2 (a b : N) :
  a <= 255 -> b <= 255 ->
  N.lor (N.shiftl a 16) (N.shiftl b 8) = a * 65536 + b * 256 + 0.
Proof.
  intros Ha Hb. pose proof (val_3 a b 0 Ha Hb ltac:(lia)) as V.
  now rewrite N.lor_0_r in V.
Qed.

Lemma val_1 (a : N) : N.shiftl a 16 = a * 65536 + 0 * 256 + 0.
Proof. rewrite N.shiftl_mul_pow2. change (2 ^ 16) with 65536. lia. Qed.

Lemma index_div (val k : N) :
  N.land (N.shiftr val k) 63 = (val / 2 ^ k) mod 64.
Proof.
  change 63 with (N.ones 6). now rewrite N.land_ones, N.shiftr_div_pow2.
Qed.

Lemma encode_inj (i j : N) :
  i < 64 -> j < 64 -> base64.encode i = base64.encode j -> i = j.
Proof.
  intros Hi Hj E.
  pose proof (below_64
    (fun i => forallb (fun j => implb (Ascii.eqb (base64.encode i) (base64.encode j))
                                      (N.eqb i j))
                      (map N.of_nat (seq 0 64))) eq_refl i Hi) as H.
  cbv beta in H.
  pose proof (below_64 _ H j Hj) as H'. cbv beta in H'.
  rewrite E, Ascii.eqb_refl in H'. now apply N.eqb_eq.
Qed.

Lemma to_N_inj (x y : Byte.byte) : Byte.to_N x = Byte.to_N y -> x = y.
Proof.
  intros E. pose proof (Byte.of_to_N x) as Hx.
  rewrite E, Byte.of_to_N in Hx. congruence.
Qed.

Lemma div_mod_64 (x y : N) :
  x / 64 = y / 64 -> x mod 64 = y mod 64 -> x = y.
Proof.
  intros Hd Hm. rewrite (N.div_mod x 64), (N.div_mod y 64) by discriminate.
  now rewrite Hd, Hm.
Qed.

(** The three upper six-bit digits of a 24-bit value determine it up to
    its last digit. *)
Lemma group_inj (V V' : N) :
  V < 2 ^ 24 -> V' < 2 ^ 24 ->
  (V / 2 ^ 18) mod 64 = (V' / 2 ^ 18) mod 64 ->
  (V / 2 ^ 12) mod 64 = (V' / 2 ^ 12) mod 64 ->
  (V / 2 ^ 6) mod 64 = (V' / 2 ^ 6) mod 64 ->
  V / 64 = V' / 64.
Proof.
  intros B B' H18 H12 H6.
  change (2 ^ 18) with (64 * 64 * 64) in H18.
  change (2 ^ 12) with (64 * 64) in H12. change (2 ^ 6) with 64 in H6.
  rewrite <- !(N.Div0.div_div V), <- !(N.Div0.div_div V') in H18.
  rewrite <- (N.Div0.div_div V), <- (N.Div0.div_div V') in H12.
  assert (S : forall X, X < 2 ^ 24 -> X / 64 / 64 / 64 < 64).
  { intros X HX. rewrite !N.Div0.div_div.
    apply N.Div0.div_lt_upper_bound. exact HX. }
  rewrite !N.mod_small in H18 by now apply S.
  apply div_mod_64; [|assumption].
  apply div_mod_64; assumption.
Qed.

Ltac index_eqs :=
  repeat match goal with
         | H : base64.encode _ = base64.encode _ |- _ =>
             apply encode_inj in H; [|apply land_63..]
         end;
  repeat match goal with
         | H : N.land (N.shiftr _ _) 63 = N.land (N.shiftr _ _) 63 |- _ =>
             rewrite !index_div in H
         | H : N.land _ 63 = N.land _ 63 |- _ =>
             change 63 with (N.ones 6) in H; rewrite !N.land_ones in H;
             change (2 ^ 6) with 64 in H
         end.

Lemma val_lt (a b c : N) :
  a <= 255 -> b <= 255 -> c <= 255 -> a * 65536 + b * 256 + c < 2 ^ 24.
Proof. change (2 ^ 24) with 16777216. lia. Qed.

Lemma mod_64_bytes (a b : N) : (a * 65536 + b * 256 + 0) mod 64 = 0.
Proof.
  replace (a * 65536 + b * 256 + 0) with ((a * 1024 + b * 4) * 64) by lia.
  apply N.Div0.mod_mul.
Qed.

Lemma digit_6_byte (a : N) : ((a * 65536 + 0 * 256 + 0) / 2 ^ 6) mod 64 = 0.
Proof.
  replace (a * 65536 + 0 * 256 + 0) with (a * 1024 * 64) by lia.
  change (2 ^ 6) with 64. rewrite N.div_mul by discriminate.
  replace (a * 1024) with (a * 16 * 64) by lia. apply N.Div0.mod_mul.
Qed.

Lemma EncodeToString_inj_aux (src src' : list Byte.byte) :
  base64.EncodeToString src = base64.EncodeToString src' -> src = src'.
Proof.
  revert src'.
  induction src as [|a|a b|a b c l IH] using list_ind3;
    intros [|a' [|b' [|c' l']]]; cbn [base64.EncodeToString]; cbv zeta;
    intros E; try discriminate E; try reflexivity.
  - (* one byte each *)
    injection E as E0 E1. index_eqs.
    pose proof (Byte.to_N_bounded a). pose proof (Byte.to_N_bounded a').
    rewrite !val_1 in E0, E1.
    pose proof (group_inj _ _ (val_lt _ 0 0 H ltac:(lia) ltac:(lia))
                  (val_lt _ 0 0 H0 ltac:(lia) ltac:(lia)) E0 E1) as G.
    rewrite !digit_6_byte in G. specialize (G eq_refl).
    apply div_mod_64 in G; [|now rewrite !mod_64_bytes].
    f_equal. apply to_N_inj. lia.
  - (* two bytes each *)
    injection E as E0 E1 E2. index_eqs.
    pose proof (Byte.to_N_bounded a). pose proof (Byte.to_N_bounded a').
    pose proof (Byte.to_N_bounded b). pose proof (Byte.to_N_bounded b').
    rewrite !val_2 in E0, E1, E2 by assumption.
    pose proof (group_inj _ _ (val_lt _ _ 0 H H1 ltac:(lia))
                  (val_lt _ _ 0 H0 H2 ltac:(lia)) E0 E1 E2) as G.
    apply div_mod_64 in G; [|now rewrite !mod_64_bytes].
    assert (Ea : Byte.to_N a = Byte.to_N a' /\ Byte.to_N b = Byte.to_N b')
      by lia.
    destruct Ea as [Ea Eb]. apply to_N_inj in Ea, Eb. now subst.
  - (* a full group each *)
    injection E as E0 E1 E2 E3 El. index_eqs.
    pose proof (Byte.to_N_bounded a). pose proof (Byte.to_N_bounded a').
    pose proof (Byte.to_N_bounded b). pose proof (Byte.to_N_bounded b').
    pose proof (Byte.to_N_bounded c). pose proof (Byte.to_N_bounded c').
    rewrite !val_3 in E0, E1, E2, E3 by assumption.
    pose proof (div_mod_64 _ _
                  (group_inj _ _ (val_lt _ _ _ H H1 H3) (val_lt _ _ _ H0 H2 H4)
                     E0 E1 E2) E3) as V.
    assert (Ea : Byte.to_N a = Byte.to_N a' /\ Byte.to_N b = Byte.to_N b'
                 /\ Byte.to_N c = Byte.to_N c') by lia.
    destruct Ea as (Ea & Eb & Ec). apply to_N_inj in Ea, Eb, Ec.
    subst. f_equal. f_equal. f_equal. now apply IH.
Qed.

End Base64Injective.

(** ** Joining a directory and a file name *)

Section JoinRootFile.

Import LocationSpec.

Lemma consHead_app (c : ascii) (l m : list string) :
  l <> [] -> consHead c (l ++ m) = (consHead c l ++ m)%list.
Proof. now destruct l. Qed.

Lemma Split_app_sep (a b : string) (sep : ascii) :
  Split (a +:+ String sep b) sep = (Split a sep ++ Split b sep)%list.
Proof.
  induction a as [|c a IH].
  - change (EmptyString +:+ String sep b) with (String sep b).
    simpl. now rewrite Ascii.eqb_refl.
  - change (String c a +:+ String sep b) with (String c (a +:+ String sep b)).
    simpl. rewrite IH. destruct (Ascii.eqb c sep); [reflexivity|].
    apply consHead_app, Split_not_nil.
Qed.

Lemma Split_no_sep (s : string) (sep : ascii) :
  Forall (fun p => occurs sep p = false) (Split s sep).
Proof.
  induction s as [|c s IH]; simpl; [now constructor|].
  destruct (Ascii.eqb c sep) eqn:E; [now constructor|].
  destruct (Split s sep) as [|p rest]; simpl.
  - constructor; [simpl; now rewrite E | constructor].
  - inversion IH; subst. constructor; [simpl; now rewrite E | assumption].
Qed.

Lemma GoJoin_snoc (l : list string) (x sep : string) :
  GoStrings.Join (l ++ [x]) sep
  = match l with [] => x | _ => GoStrings.Join l sep +:+ sep +:+ x end.
Proof.
  induction l as [|a l IH]; [reflexivity|].
  destruct l as [|b l]; [reflexivity|].
  change (GoStrings.Join ((a :: b :: l) ++ [x]) sep)
    with (a +:+ sep +:+ GoStrings.Join ((b :: l) ++ [x]) sep).
  rewrite IH.
  change (GoStrings.Join (a :: b :: l) sep)
    with (a +:+ sep +:+ GoStrings.Join (b :: l) sep).
  now rewrite !string_app_assoc.
Qed.

(** What [Clean]'s scan keeps: no empty element, no ".", no separator
    inside an element. *)
Lemma cleanElem_kept (rooted : bool) (out : list string) (elem : string) :
  occurs "/" elem = false ->
  Forall (fun e => e <> "" /\ e <> "." /\ occurs "/" e = false) out ->
  Forall (fun e => e <> "" /\ e <> "." /\ occurs "/" e = false)
         (filepath.cleanElem rooted out elem).
Proof.
  intros He Ho. unfold filepath.cleanElem.
  destruct (String.eqb_spec elem "") as [|N1]; [assumption|].
  destruct (String.eqb_spec elem ".") as [|N2]; [assumption|]. simpl.
  destruct (String.eqb_spec elem "..") as [->|N3].
  - destruct out as [|top below].
    + destruct rooted; [constructor|]. constructor; [|constructor].
      repeat split; discriminate.
    + inversion Ho; subst. destruct (String.eqb top ".."); [|assumption].
      constructor; [|assumption]. repeat split; discriminate.
  - constructor; [|assumption]. now repeat split.
Qed.

Lemma scan_kept (rooted : bool) (elems out : list string) :
  Forall (fun p => occurs "/" p = false) elems ->
  Forall (fun e => e <> "" /\ e <> "." /\ occurs "/" e = false) out ->
  Forall (fun e => e <> "" /\ e <> "." /\ occurs "/" e = false)
         (fold_left (filepath.cleanElem rooted) elems out).
Proof.
  revert out. induction elems as [|p elems IH]; intros out He Ho; [assumption|].
  inversion He; subst. simpl. apply IH; [assumption|].
  now apply cleanElem_kept.
Qed.

(** The joined text of a non-empty list of kept elements: not empty,
    not ".", and not starting with the separator. *)
Lemma GoJoin_kept (l : list string) :
  l <> [] ->
  Forall (fun e => e <> "" /\ e <> "." /\ occurs "/" e = false) l ->
  GoStrings.Join l "/" <> "" /\ GoStrings.Join l "/" <> "." /\
  HasPrefix (GoStrings.Join l "/") "/" = false.
Proof.
  intros Hl Hk. destruct l as [|x rest]; [contradiction|].
  inversion Hk as [|? ? (Nx & Nd & Sx) _]; subst.
  destruct x as [|c x]; [contradiction|].
  simpl in Sx. apply orb_false_elim in Sx as [Sc Sx].
  destruct rest as [|y rest].
  - simpl. repeat split; try assumption. now rewrite Sc.
  - change (GoStrings.Join (String c x :: y :: rest) "/")
      with (String c (x +:+ "/" +:+ GoStrings.Join (y :: rest) "/")).
    repeat split.
    + discriminate.
    + intros [= _ E]. destruct x; discriminate E.
    + simpl. now rewrite Sc.
Qed.

Lemma HasPrefix_app_l (a b : string) (c : ascii) :
  a <> "" -> HasPrefix (a +:+ b) (String c "") = HasPrefix a (String c "").
Proof.
  destruct a as [|x a]; [contradiction|]. intros _. simpl.
  now destruct (a +:+ b), a.
Qed.

(** [filepath.Join(root, file)] for a file name that is a plain path
    element: the file name under the cleaned root. *)
Lemma Join_root_file (root file : string) :
  plainElem file = true ->
  filepath.Join [root; file]
  = if String.eqb (filepath.Clean root) "." then file
    else if String.eqb (filepath.Clean root) "/" then "/" +:+ file
    else filepath.Clean root +:+ "/" +:+ file.
Proof.
  unfold plainElem. intros Hf. apply negb_true_iff in Hf.
  repeat (apply orb_false_elim in Hf as [Hf ?]).
  assert (Cf : filepath.Clean file = file).
  { unfold filepath.Clean. rewrite Hf.
    assert (R : HasPrefix file "/" = false).
    { destruct file as [|c f]; [reflexivity|]. simpl in *.
      apply orb_false_elim in H as [-> _]. reflexivity. }
    rewrite R, Split_one by assumption. cbn [fold_left].
    rewrite cleanElem_plain by assumption. cbn [rev app GoStrings.Join].
    now rewrite Hf. }
  unfold filepath.Join.
  destruct (String.eqb_spec root "") as [->|Nr].
  { rewrite Hf. cbn [GoStrings.Join]. rewrite Cf. reflexivity. }
  change (GoStrings.Join [root; file] "/") with (root +:+ String "/" file).
  unfold filepath.Clean.
  assert (E : String.eqb (root +:+ String "/" file) "" = false).
  { destruct root; [contradiction | reflexivity]. }
  apply String.eqb_neq in Nr as Er. rewrite E, Er.
  rewrite (HasPrefix_app_l root (String "/" file) "/" Nr).
  rewrite Split_app_sep, (Split_one _ _ H), fold_left_app. cbn [fold_left].
  rewrite cleanElem_plain by assumption.
  set (rooted := HasPrefix root "/").
  set (out := fold_left (filepath.cleanElem rooted) (Split root "/") []).
  assert (K : Forall (fun e => e <> "" /\ e <> "." /\ occurs "/" e = false) out).
  { apply scan_kept; [apply Split_no_sep | constructor]. }
  cbn [rev]. rewrite GoJoin_snoc.
  destruct (rev out) as [|x rest] eqn:Rv.
  - cbn [GoStrings.Join]. rewrite Hf.
    destruct rooted; reflexivity.
  - assert (K' : Forall (fun e => e <> "" /\ e <> "." /\ occurs "/" e = false)
                        (x :: rest)).
    { rewrite <- Rv. now apply Forall_rev. }
    destruct (GoJoin_kept (x :: rest) ltac:(discriminate) K') as (B1 & B2 & B3).
    set (body := GoStrings.Join (x :: rest) "/") in *.
    apply String.eqb_neq in B1 as B1', B2 as B2'.
    destruct rooted.
    + change ("/" +:+ body) with (String "/" body).
      change ("/" +:+ (body +:+ "/" +:+ file))
        with (String "/" (body +:+ "/" +:+ file)).
      assert (Q : String.eqb (String "/" body) "/" = false).
      { apply String.eqb_neq. intros [= Q]. contradiction. }
      rewrite Q. reflexivity.
    + rewrite B1'.
      assert (Q : String.eqb (body +:+ "/" +:+ file) "" = false).
      { destruct body; [contradiction | reflexivity]. }
      rewrite Q, B2'.
      assert (Q' : String.eqb body "/" = false).
      { apply String.eqb_neq. intros Q'. rewrite Q' in B3. discriminate. }
      now rewrite Q'.
Qed.

End JoinRootFile.

(** ** Thumbnail file names *)

Section ThumbnailNames.

Import LocationSpec.

(** X23: the name [RawURLEncoding.EncodeToString] makes of the random
    bytes is made of the 64 URL-safe characters only, it has
    n/3*4 + (n%3*8+5)/6 characters for n bytes, 43 for the handler's 32,
    and different byte strings get different names. *)
Theorem random_name_encoding (key key' : list Byte.byte) :
  within base64.encodeURL (base64.EncodeToString key) = true /\
  String.length (base64.EncodeToString key)
  = (List.length key / 3 * 4 + (List.length key mod 3 * 8 + 5) / 6)%nat /\
  (List.length key = 32%nat ->
   String.length (base64.EncodeToString key) = 43%nat) /\
  (base64.EncodeToString key = base64.EncodeToString key' -> key = key').
Proof.
  split; [apply EncodeToString_within|].
  split; [apply EncodeToString_length|].
  split; [|apply EncodeToString_inj_aux].
  intros L. rewrite EncodeToString_length, L. reflexivity.
Qed.

Lemma within_occurs (alphabet s : string) (c : ascii) :
  within alphabet s = true -> occurs c alphabet = false -> occurs c s = false.
Proof.
  intros W A. induction s as [|x s IH]; [reflexivity|].
  simpl in *. apply andb_prop in W as [Wx Ws]. rewrite (IH Ws), orb_false_r.
  destruct (Ascii.eqb_spec x c) as [->|]; [congruence | reflexivity].
Qed.

Lemma plainElem_name (key : list Byte.byte) (ext : string) :
  ext = ".jpg" \/ ext = ".png" ->
  plainElem (base64.EncodeToString key +:+ ext) = true /\
  occurs "/" (base64.EncodeToString key +:+ ext) = false.
Proof.
  intros He.
  assert (S : occurs "/" (base64.EncodeToString key +:+ ext) = false).
  { rewrite occurs_app.
    rewrite (within_occurs _ _ "/" (EncodeToString_within key) eq_refl).
    destruct He as [->| ->]; reflexivity. }
  split; [|exact S]. unfold plainElem. rewrite S.
  assert (L : forall t, (String.length t < 4)%nat ->
                String.eqb (base64.EncodeToString key +:+ ext) t = false).
  { intros t Ht. apply String.eqb_neq. intros E.
    apply (f_equal String.length) in E. rewrite length_app in E.
    destruct He as [->| ->]; simpl in E; lia. }
  rewrite !L by (simpl; lia). reflexivity.
Qed.

(** The files the thumbnail handler creates: the random name and the
    extension of the media type, joined to the assets root. *)
Lemma thumbnail_created_paths (cfg : apiConfig) (env : Collaborators)
    (r : Request) (w : World) :
  exists evs,
    trace (snd (serve (handlerUploadThumbnail cfg env r) w))
    = (trace w ++ evs)%list /\
    forall path, In (EvCreate path) evs ->
      exists name ext,
        rand_Read env = Some name /\ (ext = ".jpg" \/ ext = ".png") /\
        path = filepath.Join [assetsRoot cfg; name +:+ ext].
Proof.
  handler_unfold. handler_cases.
  all: eexists; split; [first [ rewrite <- ?app_assoc; reflexivity
                              | symmetry; apply app_nil_r ] |].
  all: intros path HIn; cbn [In app] in HIn;
    repeat (destruct HIn as [HIn|HIn]; try discriminate HIn);
    try contradiction.
  all: injection HIn as <-.
  all: match goal with H : _ || _ = true |- _ =>
         pose proof (contentTypeToExt_image _ H) as E end.
  all: match goal with
       | H : contentTypeToExt !! _ = Some ?e |- _ =>
           exists s2, e; split; [reflexivity|]; split; [|reflexivity];
           destruct E as [[_ E]|[_ E]]; rewrite E in H;
           injection H as <-; tauto
       end.
Qed.

(** X24: where the thumbnail file goes. With the random name an
    encoding of the random bytes, whatever these are, every file the
    thumbnail handler creates is the name followed by ".jpg" or ".png",
    directly under the cleaned assets root: the name holds no '/', so
    it cannot point anywhere else. *)
Theorem thumbnail_created_under_root (cfg : apiConfig) (env : Collaborators)
    (r : Request) (w : World) (key : list Byte.byte) :
  rand_Read env = Some (base64.EncodeToString key) ->
  let out := serve (handlerUploadThumbnail cfg env r) w in
  exists evs, trace (snd out) = (trace w ++ evs)%list /\
    forall path, In (EvCreate path) evs ->
      exists ext, (ext = ".jpg" \/ ext = ".png") /\
        let filename := base64.EncodeToString key +:+ ext in
        let root := filepath.Clean (assetsRoot cfg) in
        occurs "/" filename = false /\
        path = if String.eqb root "." then filename
               else if String.eqb root "/" then "/" +:+ filename
               else root +:+ "/" +:+ filename.
Proof.
  intros Hn. cbv zeta.
  destruct (thumbnail_created_paths cfg env r w) as (evs & Ht & Hc).
  exists evs. split; [exact Ht|]. intros path HIn.
  destruct (Hc path HIn) as (name & ext & Hname & He & ->).
  rewrite Hn in Hname. injection Hname as <-.
  exists ext. split; [exact He|].
  destruct (plainElem_name key ext He) as [P S].
  split; [exact S | now apply Join_root_file].
Qed.

Lemma thumbnail_created_under_root_witness :
  let out := serve (handlerUploadThumbnail Samples.cfg
                      (withLateAnswers Samples.env
                         (Some (base64.EncodeToString sampleKey)) true
                         (fun _ _ => None))
                      (Samples.request "v1" "alice" "image/png")) Samples.w in
  trace (snd out)
  = [EvCreate "assets/AAECAwQFBgcICQoLDA0ODxAREhMUFRYXGBkaGxwdHh8.png";
     EvUpdateVideo
       (withThumbnailURL Samples.aliceVideo
          "http://localhost:8091/assets/AAECAwQFBgcICQoLDA0ODxAREhMUFRYXGBkaGxwdHh8.png")] /\
  exists evs, trace (snd out) = (trace Samples.w ++ evs)%list /\
    forall path, In (EvCreate path) evs ->
      exists ext, (ext = ".jpg" \/ ext = ".png") /\
        let filename := base64.EncodeToString sampleKey +:+ ext in
        let root := filepath.Clean "./assets" in
        occurs "/" filename = false /\
        path = if String.eqb root "." then filename
               else if String.eqb root "/" then "/" +:+ filename
               else root +:+ "/" +:+ filename.
Proof.
  split; [reflexivity|].
  exact (thumbnail_created_under_root Samples.cfg
           (withLateAnswers Samples.env
              (Some (base64.EncodeToString sampleKey)) true (fun _ _ => None))
           (Samples.request "v1" "alice" "image/png") Samples.w sampleKey
           eq_refl).
Defined.

End ThumbnailNames.

(** ** Resolving a stored Location *)

Section ResolvingLocations.

Import LocationSpec.

(** X25: both forms of a Location resolve alike. For a bucket name free
    of commas, dots and '/' and a key free of commas, signing a record
    whose Location is the compact "bucket,key" and signing it with the
    URL-form "https://bucket.domain/key" make the same presign request,
    for that bucket and key whatever the domain is, and give the same
    result: the record with only its Location replaced by the presigned
    URL, or a failure when the presigner fails. *)
Theorem both_forms_sign_alike (env : Collaborators) (video : Video)
    (bucket domain key : string) :
  occurs "," bucket = false -> occurs "." bucket = false ->
  occurs "/" bucket = false -> occurs "/" domain = false ->
  occurs "," key = false ->
  let signed :=
    match PresignGetObject env bucket key with
    | Some presignedURL => inr (withVideoURL video presignedURL)
    | None => inl PresignFailed
    end in
  dbVideoToSignedVideo env (withVideoURL video (compactLocation bucket key))
  = signed /\
  dbVideoToSignedVideo env
    (withVideoURL video
       ("https://" +:+ bucket +:+ "." +:+ domain +:+ "/" +:+ key))
  = signed.
Proof.
  intros Hc Hd Hs Hdom Hk. cbv zeta.
  assert (Hp : HasPrefix bucket "https://" = false).
  { destruct (HasPrefix bucket "https://") eqn:P; [|reflexivity].
    destruct (HasPrefix_inv _ _ P) as [rest ->].
    rewrite occurs_app in Hs. discriminate Hs. }
  unfold dbVideoToSignedVideo, generatePresignedURL.
  cbn [VideoURL withVideoURL ID UserID ThumbnailURL].
  rewrite decodeVideoURL_compactLocation by assumption.
  assert (A : "https://" +:+ bucket +:+ "." +:+ domain +:+ "/" +:+ key
              = "https://" +:+ (bucket +:+ "." +:+ domain) +:+ "/" +:+ key).
  { now rewrite !string_app_assoc. }
  rewrite A, decodeVideoURL_host_path.
  - unfold firstLabel. change ("." +:+ domain) with (String "." domain).
    rewrite (cut_app _ _ _ Hd).
    destruct (PresignGetObject env bucket key); split; reflexivity.
  - rewrite occurs_app, Hs. simpl. exact Hdom.
Qed.

Lemma both_forms_sign_alike_witness :
  dbVideoToSignedVideo Samples.env
    (withVideoURL Samples.aliceVideo "my-bucket,landscape/abc.mp4")
  = inr (withVideoURL Samples.aliceVideo
           "https://signed/my-bucket/landscape/abc.mp4") /\
  dbVideoToSignedVideo Samples.env
    (withVideoURL Samples.aliceVideo
       "https://my-bucket.s3.eu-north-1.amazonaws.com/landscape/abc.mp4")
  = inr (withVideoURL Samples.aliceVideo
           "https://signed/my-bucket/landscape/abc.mp4").
Proof.
  exact (both_forms_sign_alike Samples.env Samples.aliceVideo
           "my-bucket" "s3.eu-north-1.amazonaws.com" "landscape/abc.mp4"
           eq_refl eq_refl eq_refl eq_refl eq_refl).
Defined.

End ResolvingLocations.
